(** * HabitIQ: the reminder extractor of [src/components/smart-reminders.tsx]

    A shallow embedding of the reminder extraction engine of the
    [SmartReminders] component and of the part of the JavaScript runtime it
    calls (strings, arrays, [RegExp], [Map]), followed by the properties of
    the extractor.  The handlers of the two components that produce the
    notes, [src/app/page.tsx] and [src/components/notes-manager.tsx], are
    embedded as well, for the properties that relate them to the extractor.

    Conventions of the embedding.
    - A JavaScript string is a [list ascii]; a character stands for the
      UTF-16 code unit with the same number (U+0000 to U+00FF).
    - A JavaScript number that is a length, an index or a table cell is a
      [nat]; the one quotient of the program, in [similarity], is a
      [number] (exact rational, infinities, NaN).
    - [Date.now()] and [Math.random()] are read from an environment [Env]
      that lists the answers of the successive calls. *)

From Stdlib Require Import String Ascii DecimalString List Arith Bool Lia.
From Stdlib Require Import ZArith QArith.
From Stdlib Require Import Sorted Permutation.
From Stdlib Require NArith DecimalFacts DecimalN.
Import ListNotations.

Set Implicit Arguments.
Local Open Scope string_scope.
Local Open Scope list_scope.
Local Open Scope nat_scope.

(** ** The JavaScript runtime *)

Module JS.

(** Strings. *)
Definition jsstring := list ascii.

Definition str (s : string) : jsstring := list_ascii_of_string s.

Definition code (c : ascii) : nat := nat_of_ascii c.

Definition string_eqb (a b : jsstring) : bool :=
  if list_eq_dec ascii_dec a b then true else false.

(** [s.charAt(i)]: the one-character string at [i], the empty string when
    [i] is out of range.  [None] stands for the empty string. *)
Definition charAt (s : jsstring) (i : nat) : option ascii := nth_error s i.

Definition charAt_eqb (a b : option ascii) : bool :=
  match a, b with
  | Some x, Some y => Ascii.eqb x y
  | None, None => true
  | _, _ => false
  end.

(** [s.substring(a, b)] for [0 <= a]; both ends are clamped to the length. *)
Definition substring (s : jsstring) (a b : nat) : jsstring :=
  let a' := Nat.min a (length s) in
  let b' := Nat.min b (length s) in
  firstn (Nat.max a' b' - Nat.min a' b') (skipn (Nat.min a' b') s).

(** White space and line terminators below U+0100: TAB, LF, VT, FF, CR,
    SP and NBSP.  This is the set of [\s] and of [trim]. *)
Definition isWhiteSpace (c : ascii) : bool :=
  let n := code c in
  ((9 <=? n) && (n <=? 13)) || (n =? 32) || (n =? 160).

(** Line terminators below U+0100: LF and CR. *)
Definition isLineTerminator (c : ascii) : bool :=
  let n := code c in (n =? 10) || (n =? 13).

Fixpoint trimStart (s : jsstring) : jsstring :=
  match s with
  | c :: t => if isWhiteSpace c then trimStart t else s
  | [] => []
  end.

Definition trim (s : jsstring) : jsstring :=
  rev (trimStart (rev (trimStart s))).

(** [toLowerCase] on U+0000..U+00FF: A-Z and the capital letters
    U+00C0..U+00DE (but the multiplication sign U+00D7) move by 32. *)
Definition lowerChar (c : ascii) : ascii :=
  let n := code c in
  if ((65 <=? n) && (n <=? 90))
     || ((192 <=? n) && (n <=? 222) && negb (n =? 215))
  then ascii_of_nat (n + 32) else c.

Definition toLowerCase (s : jsstring) : jsstring := map lowerChar s.

(** The canonical form used by a case-insensitive [RegExp] without the
    [u] flag: the upper-case character.  The two small letters of the range
    whose capital lies above U+00FF (U+00B5 and U+00FF) and the sharp s are
    their own canonical form here: no other character of the range has
    their capital, so every comparison comes out as in the runtime. *)
Definition canonicalize (c : ascii) : ascii :=
  let n := code c in
  if ((97 <=? n) && (n <=? 122))
     || ((224 <=? n) && (n <=? 254) && negb (n =? 247))
  then ascii_of_nat (n - 32) else c.

Fixpoint startsWith (p s : jsstring) : bool :=
  match p, s with
  | [], _ => true
  | a :: p', b :: s' => Ascii.eqb a b && startsWith p' s'
  | _ :: _, [] => false
  end.

(** [s.includes(w)] *)
Fixpoint includes (s w : jsstring) : bool :=
  startsWith w s || match s with [] => false | _ :: t => includes t w end.

(** [s.replace(w, '')] with a string pattern: the first occurrence goes. *)
Fixpoint replaceFirst (s w : jsstring) : jsstring :=
  if startsWith w s then skipn (length w) s
  else match s with [] => [] | c :: t => c :: replaceFirst t w end.

(** Decimal rendering of a non-negative integer number. *)
Definition numberToString (n : N) : jsstring :=
  str (NilEmpty.string_of_uint (N.to_uint n)).

(** Numbers that come out of a division. *)
Inductive number : Type :=
| NaN
| Infinity (negative : bool)
| Finite (q : Q).

(** [a / b] on integer operands. *)
Definition div (a b : Z) : number :=
  match b with
  | Z0 => if (a =? 0)%Z then NaN else Infinity (a <? 0)%Z
  | Zpos p => Finite (a # p)
  | Zneg p => Finite ((- a) # p)
  end.

(** [x > q] for a finite constant [q]; false on NaN.  The program compares
    a quotient [n / len] of string lengths with the double next to 7/10.
    Doubles between 1/2 and 1 lie 2^-53 apart and [n / len] differs from
    7/10 by 0 or by at least [1 / (10 len)], so for any [len] below
    9 * 10^14 the rounded comparison and the exact one agree. *)
Definition gt (x : number) (q : Q) : bool :=
  match x with
  | NaN => false
  | Infinity neg => negb neg
  | Finite p => negb (Qle_bool p q)
  end.

(** [x <= q] for a finite constant [q]; false on NaN. *)
Definition le (x : number) (q : Q) : bool :=
  match x with
  | NaN => false
  | Infinity neg => neg
  | Finite p => Qle_bool p q
  end.

(** [x == y] on numbers: NaN equals nothing. *)
Definition num_eqb (x y : number) : bool :=
  match x, y with
  | Finite p, Finite q => Qeq_bool p q
  | Infinity a, Infinity b => Bool.eqb a b
  | _, _ => false
  end.

(** Arrays.  [a[i] = v] replaces inside the array and appends at its
    length; a write further out would leave holes, which the embedding
    does not represent: it answers [None] there. *)
Definition write {A : Type} (a : list A) (i : nat) (v : A) : option (list A) :=
  if i <? length a then Some (firstn i a ++ v :: skipn (S i) a)
  else if i =? length a then Some (a ++ [v])
  else None.

(** [for (i = start; ...; i++)] running [n] times over a state that may
    leave the embedding. *)
Fixpoint for_loop {S : Type} (n start : nat) (body : nat -> S -> option S)
  (s : S) : option S :=
  match n with
  | 0 => Some s
  | Datatypes.S n' =>
      match body start s with
      | Some s' => for_loop n' (Datatypes.S start) body s'
      | None => None
      end
  end.

(** [a.filter((x, index) => f x index)] *)
Fixpoint filteri_from {A : Type} (f : A -> nat -> bool) (i : nat) (l : list A)
  : list A :=
  match l with
  | [] => []
  | x :: t =>
      if f x i then x :: filteri_from f (S i) t else filteri_from f (S i) t
  end.

Definition filteri {A : Type} (f : A -> nat -> bool) (l : list A) : list A :=
  filteri_from f 0 l.

(** [a.slice(0, i)] and [a.some(p)] *)
Definition slice0 {A : Type} (l : list A) (i : nat) : list A := firstn i l.
Definition some {A : Type} (p : A -> bool) (l : list A) : bool := existsb p l.

(** [a.sort(cmp)].  The sort of the language is stable, and [cmp] is
    consistent in both of its uses; the result is then the one stable
    arrangement, which insertion from the right computes.  An element
    stays in front of a later one unless [cmp] is positive. *)
Fixpoint sort_insert {A : Type} (cmp : A -> A -> Z) (x : A) (l : list A)
  : list A :=
  match l with
  | [] => [x]
  | y :: t => if (cmp x y <=? 0)%Z then x :: y :: t
              else y :: sort_insert cmp x t
  end.

Fixpoint sort {A : Type} (cmp : A -> A -> Z) (l : list A) : list A :=
  match l with
  | [] => []
  | x :: t => sort_insert cmp x (sort cmp t)
  end.

(** [Map] with string keys, in insertion order.  [set] replaces the value
    of a key that is present and adds the others at the end. *)
Module Map.
Definition t (V : Type) : Type := list (jsstring * V).

Fixpoint set {V : Type} (m : t V) (k : jsstring) (v : V) : t V :=
  match m with
  | [] => [(k, v)]
  | (k', v') :: m' =>
      if string_eqb k' k then (k, v) :: m' else (k', v') :: set m' k v
  end.

Fixpoint get {V : Type} (m : t V) (k : jsstring) : option V :=
  match m with
  | [] => None
  | (k', v') :: m' => if string_eqb k' k then Some v' else get m' k
  end.

(** [new Map(entries)] *)
Definition ofEntries {V : Type} (entries : list (jsstring * V)) : t V :=
  fold_left (fun m e => set m (fst e) (snd e)) entries [].
End Map.

End JS.

Import JS.

(** ** The edit distance of the component *)

Definition Matrix := list (list nat).

(** [matrix[i][j]]; [None] is [undefined]. *)
Definition cell (matrix : Matrix) (i j : nat) : option nat :=
  match nth_error matrix i with
  | Some row => nth_error row j
  | None => None
  end.

(** [matrix[i][j] = v] *)
Definition set_cell (matrix : Matrix) (i j v : nat) : option Matrix :=
  match nth_error matrix i with
  | Some row =>
      match write row j v with
      | Some row' => write matrix i row'
      | None => None
      end
  | None => None
  end.

Definition bind {A B : Type} (x : option A) (f : A -> option B) : option B :=
  match x with Some a => f a | None => None end.

Notation "x <- c ;; k" := (bind c (fun x => k))
  (at level 61, c at next level, right associativity).

(** The body of the inner loop, lines 136-144. *)
Definition levenshtein_step (str1 str2 : jsstring) (i j : nat)
  (matrix : Matrix) : option Matrix :=
  if charAt_eqb (charAt str2 (i - 1)) (charAt str1 (j - 1)) then
    d <- cell matrix (i - 1) (j - 1) ;;
    set_cell matrix i j d
  else
    a <- cell matrix (i - 1) (j - 1) ;;
    b <- cell matrix i (j - 1) ;;
    c <- cell matrix (i - 1) j ;;
    set_cell matrix i j (Nat.min (a + 1) (Nat.min (b + 1) (c + 1))).

(** The table after the three loops, lines 127-146. *)
Definition levenshteinMatrix (str1 str2 : jsstring) : option Matrix :=
  m0 <- for_loop (S (length str2)) 0 (fun i m => write m i [i]) [] ;;
  m1 <- for_loop (S (length str1)) 0 (fun j m => set_cell m 0 j j) m0 ;;
  for_loop (length str2) 1
    (fun i m => for_loop (length str1) 1 (levenshtein_step str1 str2 i) m) m1.

(** [levenshteinDistance]; [None] would be an [undefined] result. *)
Definition levenshteinDistance (str1 str2 : jsstring) : option nat :=
  matrix <- levenshteinMatrix str1 str2 ;;
  cell matrix (length str2) (length str1).

(** [similarity], lines 119-124.  An [undefined] distance would make the
    quotient NaN. *)
Definition similarity (str1 str2 : jsstring) : number :=
  let longer := if length str2 <? length str1 then str1 else str2 in
  let shorter := if length str2 <? length str1 then str2 else str1 in
  match levenshteinDistance longer shorter with
  | Some editDistance =>
      JS.div (Z.of_nat (length longer) - Z.of_nat editDistance)
             (Z.of_nat (length longer))
  | None => NaN
  end.


(** ** Regular expressions

    The fragment of the pattern language that the literals of the component
    use, with the backtracking semantics of the language: alternatives are
    tried left to right, a greedy quantifier takes the longer match first,
    a lazy one the shorter, and the first attempt that lets the rest of the
    pattern match wins. *)

Module RegExp.

Inductive charclass : Type :=
| Lit (c : ascii)        (* a pattern character, also an escaped one *)
| Dot                    (* [.] : anything but a line terminator *)
| Space.                 (* [\s] *)

Inductive regex : Type :=
| Empty
| Atom (a : charclass)
| EndAnchor                                        (* [$], no [m] flag *)
| Seq (r1 r2 : regex)
| Alt (r1 r2 : regex)                              (* [r1|r2] *)
| Capture (r : regex)                              (* [(r)], group 1 *)
| Repeat (a : charclass) (min : nat) (greedy : bool)
    (* [a*] and [a+] (greedy), [a*?] and [a+?] (lazy); [min] is 0 or 1 *)
| Optional (r : regex).                            (* [(?:r)?] *)

(** A pattern literal: its text between the slashes, its flags and its
    syntax tree. *)
Record t : Type := mk {
  source : jsstring;
  global : bool;
  ignoreCase : bool;
  pattern : regex
}.

(** The literal word [w] and the alternation [r1|...|rn]. *)
Fixpoint word (w : jsstring) : regex :=
  match w with
  | [] => Empty
  | [c] => Atom (Lit c)
  | c :: t => Seq (Atom (Lit c)) (word t)
  end.

Fixpoint alts (rs : list regex) : regex :=
  match rs with
  | [] => Empty
  | [r] => r
  | r :: t => Alt r (alts t)
  end.

Definition words (ws : list string) : regex := alts (map (fun w => word (str w)) ws).

(** The captures: the two ends of group 1, when it has taken part. *)
Definition captures := option (nat * nat).

(** What a successful match leaves: its end and the captures. *)
Definition result := (nat * captures)%type.

(** A continuation: the rest of the pattern, run on the rest of the input,
    the current position and the captures so far. *)
Definition cont := jsstring -> nat -> captures -> option result.

Definition class_match (ic : bool) (a : charclass) (c : ascii) : bool :=
  match a with
  | Lit p => if ic then Ascii.eqb (canonicalize p) (canonicalize c)
             else Ascii.eqb p c
  | Dot => negb (isLineTerminator c)
  | Space => isWhiteSpace c
  end.

(** The quantified character class.  Each round takes one character, so the
    rule of the language that refuses an empty round never applies. *)
Fixpoint repeat_class (ic : bool) (a : charclass) (min : nat) (greedy : bool)
  (k : cont) (rest : jsstring) (pos : nat) (cap : captures) {struct rest}
  : option result :=
  let again :=
    match rest with
    | c :: rest' =>
        if class_match ic a c
        then repeat_class ic a (Nat.pred min) greedy k rest' (S pos) cap
        else None
    | [] => None
    end in
  if negb (min =? 0) then again
  else if greedy then
    match again with Some z => Some z | None => k rest pos cap end
  else
    match k rest pos cap with Some z => Some z | None => again end.

Fixpoint rmatch (ic : bool) (r : regex) (k : cont)
  (rest : jsstring) (pos : nat) (cap : captures) {struct r} : option result :=
  match r with
  | Empty => k rest pos cap
  | Atom a =>
      match rest with
      | c :: rest' => if class_match ic a c then k rest' (S pos) cap else None
      | [] => None
      end
  | EndAnchor =>
      match rest with
      | [] => k rest pos cap
      | _ :: _ => None
      end
  | Seq r1 r2 => rmatch ic r1 (rmatch ic r2 k) rest pos cap
  | Alt r1 r2 =>
      match rmatch ic r1 k rest pos cap with
      | Some z => Some z
      | None => rmatch ic r2 k rest pos cap
      end
  | Capture r1 =>
      rmatch ic r1 (fun rest' pos' _ => k rest' pos' (Some (pos, pos')))
        rest pos cap
  | Repeat a min greedy => repeat_class ic a min greedy k rest pos cap
  | Optional r1 =>
      match rmatch ic r1
              (fun rest' pos' cap' =>
                 if pos' =? pos then None else k rest' pos' cap')
              rest pos cap with
      | Some z => Some z
      | None => k rest pos cap
      end
  end.

(** The value of a successful [exec]: [match.index], [match[0]],
    [match[1]] ([None] is [undefined]) and the end of the match, which a
    global pattern stores in [lastIndex]. *)
Record MatchResult : Type := mkMatch {
  index : nat;
  match0 : jsstring;
  match1 : option jsstring;
  endIndex : nat
}.

(** The first position from [pos] on at which the pattern matches. *)
Fixpoint search (ic : bool) (r : regex) (text rest : jsstring) (pos : nat)
  {struct rest} : option MatchResult :=
  match rmatch ic r (fun _ e cap => Some (e, cap)) rest pos None with
  | Some (e, cap) =>
      Some (mkMatch pos (substring text pos e)
              (option_map (fun se => substring text (fst se) (snd se)) cap) e)
  | None =>
      match rest with
      | [] => None
      | _ :: rest' => search ic r text rest' (S pos)
      end
  end.

(** [re.exec(text)] with [re.lastIndex = lastIndex] ([0] for a pattern
    that is not global). *)
Definition exec (re : t) (text : jsstring) (lastIndex : nat)
  : option MatchResult :=
  if length text <? lastIndex then None
  else search (ignoreCase re) (pattern re) text (skipn lastIndex text) lastIndex.

(** [re.test(text)] and the truth value of [text.match(re)], for a pattern
    without the [g] flag. *)
Definition test (re : t) (text : jsstring) : bool :=
  match exec re text 0 with Some _ => true | None => false end.

(** [while ((match = re.exec(text)) !== null) ...]: the successive matches
    of a global pattern.  No match of a pattern of the component is empty
    (see [execLoop_fuel]), so each round moves [lastIndex] forward and
    [S (length text)] rounds are never used up. *)
Fixpoint execLoop (fuel : nat) (re : t) (text : jsstring) (lastIndex : nat)
  : list MatchResult :=
  match fuel with
  | 0 => []
  | S fuel' =>
      match exec re text lastIndex with
      | None => []
      | Some m => m :: execLoop fuel' re text (endIndex m)
      end
  end.

Definition execAll (re : t) (text : jsstring) : list MatchResult :=
  execLoop (S (length text)) re text 0.

(** A pattern that matches the empty string somewhere. *)
Fixpoint nullable (r : regex) : bool :=
  match r with
  | Empty | EndAnchor | Optional _ => true
  | Atom _ => false
  | Seq r1 r2 => nullable r1 && nullable r2
  | Alt r1 r2 => nullable r1 || nullable r2
  | Capture r1 => nullable r1
  | Repeat _ min _ => min =? 0
  end.

End RegExp.

Import RegExp.

(** ** The data of the component *)

Inductive NoteType : Type := text_note | voice_note.

Module Note.
Record t : Type := mk {
  id : jsstring;
  content : jsstring;
  transcript : option jsstring;
  timestamp : jsstring;
  type : NoteType;
  tags : option (list jsstring)
}.
End Note.

Inductive Priority : Type := high | medium | low.

Module Reminder.
Record t : Type := mk {
  id : jsstring;
  noteId : jsstring;
  text : jsstring;
  extractedFrom : jsstring;
  priority : Priority;
  category : jsstring;
  suggestedTime : option jsstring;
  isCompleted : bool;
  isDismissed : bool;
  createdAt : jsstring
}.
End Reminder.

(** The clock and the random generator: the answers of the successive
    calls of [Date.now()] (milliseconds) and of [Math.random()] (the
    decimal text that a template literal prints for the number). *)
Record Env : Type := mkEnv {
  Date_now : nat -> N;
  Math_random : nat -> jsstring
}.

(** ** The extractor *)

Definition LF : ascii := ascii_of_nat 10.

(** [reminderPatterns], lines 74-82; all carry the flags [gi]. *)
Definition reminderPatterns : list RegExp.t :=
  [ RegExp.mk
      (str "(?:remind me to|remember to|need to|have to|should|must|don't forget to)\s+(.+?)(?:\.|$|\n)")
      true true
      (Seq (words ["remind me to"; "remember to"; "need to"; "have to";
                   "should"; "must"; "don't forget to"])
        (Seq (Repeat Space 1 true)
          (Seq (Capture (Repeat Dot 1 false))
               (alts [Atom (Lit "."); EndAnchor; Atom (Lit LF)]))));
    RegExp.mk
      (str "(?:tomorrow|today|later|this week|next week|this month).*?(exercise|workout|drink|water|call|meeting|appointment|task)")
      true true
      (Seq (words ["tomorrow"; "today"; "later"; "this week"; "next week";
                   "this month"])
        (Seq (Repeat Dot 0 false)
             (Capture (words ["exercise"; "workout"; "drink"; "water"; "call";
                              "meeting"; "appointment"; "task"]))));
    RegExp.mk
      (str "(exercise|workout|gym|run|walk|jog|stretch|yoga)(?:\s+(?:tomorrow|today|later|this week))?")
      true true
      (Seq (Capture (words ["exercise"; "workout"; "gym"; "run"; "walk"; "jog";
                            "stretch"; "yoga"]))
           (Optional (Seq (Repeat Space 1 true)
                          (words ["tomorrow"; "today"; "later"; "this week"]))));
    RegExp.mk
      (str "(drink|water|hydrate)(?:\s+(?:more|enough|regularly))?")
      true true
      (Seq (Capture (words ["drink"; "water"; "hydrate"]))
           (Optional (Seq (Repeat Space 1 true)
                          (words ["more"; "enough"; "regularly"]))));
    RegExp.mk
      (str "(sleep|bed|rest)(?:\s+(?:early|earlier|better|enough))?")
      true true
      (Seq (Capture (words ["sleep"; "bed"; "rest"]))
           (Optional (Seq (Repeat Space 1 true)
                          (words ["early"; "earlier"; "better"; "enough"]))));
    RegExp.mk
      (str "(meditat|mindfulness|breathe)(?:\s+(?:daily|regularly))?")
      true true
      (Seq (Capture (words ["meditat"; "mindfulness"; "breathe"]))
           (Optional (Seq (Repeat Space 1 true)
                          (words ["daily"; "regularly"]))));
    RegExp.mk
      (str "(read|study|learn)(?:\s+(?:more|daily|tonight))?")
      true true
      (Seq (Capture (words ["read"; "study"; "learn"]))
           (Optional (Seq (Repeat Space 1 true)
                          (words ["more"; "daily"; "tonight"])))) ].

(** [determinePriority], lines 150-160. *)
Definition highPriorityWords : list jsstring :=
  map str ["urgent"; "important"; "asap"; "immediately"; "critical";
           "deadline"]%string.

Definition lowPriorityWords : list jsstring :=
  map str ["maybe"; "eventually"; "someday"; "if possible"]%string.

Definition determinePriority (text : jsstring) : Priority :=
  let lowerText := toLowerCase text in
  if some (fun word => includes lowerText word) highPriorityWords then high
  else if some (fun word => includes lowerText word) lowPriorityWords then low
  else medium.

(** The pattern [/(w1|...|wn)/] of [categorizeReminder]: no flag. *)
Definition keywordPattern (src : string) (ws : list string) : RegExp.t :=
  RegExp.mk (str src) false false (Capture (words ws)).

(** [categorizeReminder], lines 162-174. *)
Definition categorizeReminder (text : jsstring) : jsstring :=
  let lowerText := toLowerCase text in
  if test (keywordPattern "(exercise|workout|gym|run|walk|jog|stretch|yoga|fitness)"
             ["exercise"; "workout"; "gym"; "run"; "walk"; "jog"; "stretch";
              "yoga"; "fitness"]) lowerText
  then str "fitness"
  else if test (keywordPattern "(drink|water|hydrate)"
                  ["drink"; "water"; "hydrate"]) lowerText
  then str "hydration"
  else if test (keywordPattern "(sleep|bed|rest)" ["sleep"; "bed"; "rest"])
               lowerText
  then str "sleep"
  else if test (keywordPattern "(meditat|mindfulness|breathe)"
                  ["meditat"; "mindfulness"; "breathe"]) lowerText
  then str "mindfulness"
  else if test (keywordPattern "(read|study|learn)" ["read"; "study"; "learn"])
               lowerText
  then str "learning"
  else if test (keywordPattern "(call|meeting|appointment|work)"
                  ["call"; "meeting"; "appointment"; "work"]) lowerText
  then str "work"
  else if test (keywordPattern "(eat|meal|food|cook)"
                  ["eat"; "meal"; "food"; "cook"]) lowerText
  then str "nutrition"
  else str "general".

(** [timePatterns], lines 177-187: the literal [/w/i]. *)
Definition timePattern (w : string) : RegExp.t :=
  RegExp.mk (str w) false true (word (str w)).

Definition timePatterns : list RegExp.t :=
  map timePattern
    ["tomorrow"; "today"; "tonight"; "this morning"; "this afternoon";
     "this evening"; "this week"; "next week"; "this month"]%string.

(** The characters of the class [[\/\\^$*+?.()|[\]{}]]. *)
Definition isMetaChar (c : ascii) : bool :=
  existsb (Ascii.eqb c) (str "/\^$*+?.()|[]{}").

(** [s.replace(/[\/\\^$*+?.()|[\]{}]/g, '')]: every character of the class
    goes. *)
Definition stripMetaChars (s : jsstring) : jsstring :=
  filter (fun c => negb (isMetaChar c)) s.

(** [extractTimeHint], lines 176-196; [None] is [undefined]. *)
Fixpoint firstTimeHint (patterns : list RegExp.t) (text : jsstring)
  : option jsstring :=
  match patterns with
  | [] => None
  | pattern :: rest =>
      if test pattern text
      then Some (replaceFirst (stripMetaChars (source pattern)) (str "i"))
      else firstTimeHint rest text
  end.

Definition extractTimeHint (text : jsstring) : option jsstring :=
  firstTimeHint timePatterns text.

(** The identifier of line 90; [k] counts the calls of the clock and of the
    generator made before this one. *)
Definition reminderId (env : Env) (note : Note.t) (k : nat) : jsstring :=
  Note.id note ++ str "-" ++ numberToString (Date_now env k)
    ++ str "-" ++ Math_random env k.

(** The body of the [while] loop, lines 87-101, for one match.  Every push
    reads the clock and the generator once, so the number of earlier calls
    is the length of [reminders]. *)
Definition pushMatch (env : Env) (note : Note.t) (text : jsstring)
  (reminders : list Reminder.t) (m : MatchResult) : list Reminder.t :=
  let reminderText :=
    match match1 m with
    | Some (c :: g) => c :: g
    | _ => match0 m
    end in
  if negb (length reminderText =? 0) && (3 <? length reminderText) then
    reminders ++
      [ Reminder.mk
          (reminderId env note (length reminders))
          (Note.id note)
          (trim reminderText)
          (substring text (index m - 20) (index m + length (match0 m) + 20))
          (determinePriority reminderText)
          (categorizeReminder reminderText)
          (extractTimeHint text)
          false
          false
          (Note.timestamp note) ]
  else reminders.

(** [note.transcript || note.content] *)
Definition noteText (note : Note.t) : jsstring :=
  match Note.transcript note with
  | Some (c :: s) => c :: s
  | _ => Note.content note
  end.

(** The two nested [forEach] loops, lines 69-104: the array [reminders]
    before the duplicates are removed. *)
Definition pushNote (env : Env) (reminders : list Reminder.t) (note : Note.t)
  : list Reminder.t :=
  let text := noteText note in
  fold_left
    (fun reminders pattern =>
       fold_left (pushMatch env note text) (execAll pattern text) reminders)
    reminderPatterns reminders.

Definition collectReminders (env : Env) (notes : list Note.t)
  : list Reminder.t :=
  fold_left (pushNote env) notes [].

(** Lines 106-111. *)
Definition uniqueReminders (reminders : list Reminder.t) : list Reminder.t :=
  filteri
    (fun reminder index =>
       negb (some (fun existing =>
                     JS.gt (similarity (Reminder.text existing)
                                       (Reminder.text reminder)) (7 # 10))
                  (slice0 reminders index)))
    reminders.

(** Lines 113-116. *)
Definition priorityOrder (p : Priority) : Z :=
  match p with high => 3 | medium => 2 | low => 1 end.

Definition byPriority (a b : Reminder.t) : Z :=
  priorityOrder (Reminder.priority b) - priorityOrder (Reminder.priority a).

(** [extractRemindersFromNotes], lines 66-117. *)
Definition extractRemindersFromNotes (env : Env) (notes : list Note.t)
  : list Reminder.t :=
  JS.sort byPriority (uniqueReminders (collectReminders env notes)).

(** ** The state of the component and its handlers *)

(** The one notification that the component shows: title [HabitIQ], the
    congratulation as its body, the site icon. *)
Inductive Notification : Type := ReminderCompletedNotification.

(** The property [notes], the three state variables, and two observations:
    the notifications created so far and the number of runs of the effect
    that extracts. *)
Record Component : Type := mkComponent {
  notes : list Note.t;
  reminders : list Reminder.t;
  showCompleted : bool;
  notificationsEnabled : bool;
  notifications : list Notification;
  extractions : nat
}.

(** [{ ...r, isCompleted: b }] and [{ ...r, isDismissed: b }] *)
Definition withCompleted (b : bool) (r : Reminder.t) : Reminder.t :=
  Reminder.mk (Reminder.id r) (Reminder.noteId r) (Reminder.text r)
    (Reminder.extractedFrom r) (Reminder.priority r) (Reminder.category r)
    (Reminder.suggestedTime r) b (Reminder.isDismissed r)
    (Reminder.createdAt r).

Definition withDismissed (b : bool) (r : Reminder.t) : Reminder.t :=
  Reminder.mk (Reminder.id r) (Reminder.noteId r) (Reminder.text r)
    (Reminder.extractedFrom r) (Reminder.priority r) (Reminder.category r)
    (Reminder.suggestedTime r) (Reminder.isCompleted r) b
    (Reminder.createdAt r).

(** The state update of lines 43-52. *)
Definition mergeReminders (prev extractedReminders : list Reminder.t)
  : list Reminder.t :=
  let existingMap :=
    Map.ofEntries
      (map (fun r => (Reminder.noteId r ++ Reminder.text r, r)) prev) in
  map (fun newReminder =>
         let key := Reminder.noteId newReminder ++ Reminder.text newReminder in
         match Map.get existingMap key with
         | Some existing =>
             withDismissed (Reminder.isDismissed existing)
               (withCompleted (Reminder.isCompleted existing) newReminder)
         | None => newReminder
         end)
      extractedReminders.

(** The effect of lines 41-53; it runs after the first rendering and after
    each one that brings another [notes]. *)
Definition notesEffect (env : Env) (c : Component) : Component :=
  let extractedReminders := extractRemindersFromNotes env (notes c) in
  mkComponent (notes c)
    (mergeReminders (reminders c) extractedReminders)
    (showCompleted c) (notificationsEnabled c) (notifications c)
    (S (extractions c)).

(** A rendering with the property [notes] set to [ns]. *)
Definition receiveNotes (env : Env) (ns : list Note.t) (c : Component)
  : Component :=
  notesEffect env
    (mkComponent ns (reminders c) (showCompleted c) (notificationsEnabled c)
       (notifications c) (extractions c)).

(** [completeReminder], lines 198-213. *)
Definition completeReminder (reminderId : jsstring) (c : Component)
  : Component :=
  mkComponent (notes c)
    (map (fun r =>
            if string_eqb (Reminder.id r) reminderId
            then withCompleted (negb (Reminder.isCompleted r)) r
            else r)
         (reminders c))
    (showCompleted c) (notificationsEnabled c)
    (if notificationsEnabled c
     then notifications c ++ [ReminderCompletedNotification]
     else notifications c)
    (extractions c).

(** [dismissReminder], lines 215-223. *)
Definition dismissReminder (reminderId : jsstring) (c : Component)
  : Component :=
  mkComponent (notes c)
    (map (fun r =>
            if string_eqb (Reminder.id r) reminderId
            then withDismissed true r
            else r)
         (reminders c))
    (showCompleted c) (notificationsEnabled c) (notifications c)
    (extractions c).

(** ** The rest of the component: what is shown *)

(** [activeReminders] and [completedCount], lines 225-226. *)
Definition activeReminders (c : Component) : list Reminder.t :=
  filter (fun r => negb (Reminder.isDismissed r)
                   && (negb (Reminder.isCompleted r) || showCompleted c))
         (reminders c).

Definition completedCount (c : Component) : nat :=
  length (filter (fun r => Reminder.isCompleted r
                           && negb (Reminder.isDismissed r))
                 (reminders c)).

(** The switch [Show completed]: [setShowCompleted]. *)
Definition setShowCompleted (b : bool) (c : Component) : Component :=
  mkComponent (notes c) (reminders c) b (notificationsEnabled c)
    (notifications c) (extractions c).

(** ** The page that owns the notes, [src/app/page.tsx] *)

(** The clock at one call: [Date.now()] and the text of
    [new Date().toISOString()]. *)
Record Clock : Type := mkClock {
  now : N;
  nowISO : jsstring
}.

(** [extractTags], lines 54-62. *)
Definition extractTags (content : jsstring) : list jsstring :=
  let tags := [] in
  let tags :=
    if includes (toLowerCase content) (str "exercise")
       || includes (toLowerCase content) (str "workout")
    then tags ++ [str "fitness"] else tags in
  let tags :=
    if includes (toLowerCase content) (str "water")
       || includes (toLowerCase content) (str "drink")
    then tags ++ [str "hydration"] else tags in
  let tags :=
    if includes (toLowerCase content) (str "sleep")
       || includes (toLowerCase content) (str "bed")
    then tags ++ [str "sleep"] else tags in
  let tags :=
    if includes (toLowerCase content) (str "read")
       || includes (toLowerCase content) (str "book")
    then tags ++ [str "learning"] else tags in
  let tags :=
    if includes (toLowerCase content) (str "meditat")
    then tags ++ [str "mindfulness"] else tags in
  tags.

Module Page.
(** The state [notes] and [quickNote], and the array whose JSON text is
    stored under the key [habitiq-notes] ([None]: the key is absent). *)
Record t : Type := mk {
  notes : list Note.t;
  quickNote : jsstring;
  stored : option (list Note.t)
}.

(** [saveNotes], lines 33-36. *)
Definition saveNotes (updatedNotes : list Note.t) (p : t) : t :=
  mk updatedNotes (quickNote p) (Some updatedNotes).

(** [setQuickNote] *)
Definition setQuickNote (s : jsstring) (p : t) : t :=
  mk (notes p) s (stored p).

(** [addQuickNote], lines 38-52. *)
Definition addQuickNote (clock : Clock) (p : t) : t :=
  if length (trim (quickNote p)) =? 0 then p
  else
    let newNote :=
      Note.mk (numberToString (now clock)) (quickNote p) None (nowISO clock)
        text_note (Some (extractTags (quickNote p))) in
    let updatedNotes := newNote :: notes p in
    setQuickNote [] (saveNotes updatedNotes p).

(** [onVoiceTranscript], lines 64-76. *)
Definition onVoiceTranscript (clock : Clock) (transcript : jsstring) (p : t)
  : t :=
  let newNote :=
    Note.mk (numberToString (now clock)) [] (Some transcript) (nowISO clock)
      voice_note (Some (extractTags transcript)) in
  let updatedNotes := newNote :: notes p in
  saveNotes updatedNotes p.
End Page.

(** ** The list of notes, [src/components/notes-manager.tsx] *)

Inductive FilterType : Type := filter_all | filter_text | filter_voice.

Module NotesManager.
(** The four state variables of the component. *)
Record t : Type := mk {
  searchTerm : jsstring;
  filterType : FilterType;
  editingNote : option Note.t;
  editContent : jsstring
}.

Definition typeMatches (f : FilterType) (ty : NoteType) : bool :=
  match f, ty with
  | filter_all, _ => true
  | filter_text, text_note => true
  | filter_voice, voice_note => true
  | _, _ => false
  end.

(** [filteredNotes], lines 33-40.  Without a transcript the second
    disjunct is [undefined], which counts as false. *)
Definition filteredNotes (notes : list Note.t) (s : t) : list Note.t :=
  filter
    (fun note =>
       let matchesSearch :=
         includes (toLowerCase (Note.content note))
                  (toLowerCase (searchTerm s))
         || match Note.transcript note with
            | Some transcript =>
                includes (toLowerCase transcript) (toLowerCase (searchTerm s))
            | None => false
            end in
       let matchesType := typeMatches (filterType s) (Note.type note) in
       matchesSearch && matchesType)
    notes.

(** [deleteNote], lines 42-45: the array handed to [onUpdateNotes]. *)
Definition deleteNote (noteId : jsstring) (notes : list Note.t)
  : list Note.t :=
  filter (fun note => negb (string_eqb (Note.id note) noteId)) notes.

(** [startEditing], lines 47-50. *)
Definition startEditing (note : Note.t) (s : t) : t :=
  mk (searchTerm s) (filterType s) (Some note) (noteText note).

(** The text area of the editor and its [Cancel] button. *)
Definition setEditContent (value : jsstring) (s : t) : t :=
  mk (searchTerm s) (filterType s) (editingNote s) value.

Definition cancelEditing (s : t) : t :=
  mk (searchTerm s) (filterType s) None (editContent s).

Definition isText (ty : NoteType) : bool :=
  match ty with text_note => true | voice_note => false end.

Definition isVoice (ty : NoteType) : bool :=
  match ty with voice_note => true | text_note => false end.

(** [saveEdit], lines 52-68: the array handed to [onUpdateNotes], if any,
    and the state afterwards. *)
Definition saveEdit (notes : list Note.t) (s : t)
  : option (list Note.t) * t :=
  match editingNote s with
  | None => (None, s)
  | Some editing =>
      let updatedNotes :=
        map (fun note =>
               if string_eqb (Note.id note) (Note.id editing)
               then Note.mk (Note.id note)
                      (if isText (Note.type editing) then editContent s
                       else Note.content note)
                      (if isVoice (Note.type editing)
                       then Some (editContent s)
                       else Note.transcript note)
                      (Note.timestamp note) (Note.type note) (Note.tags note)
               else note)
            notes in
      (Some updatedNotes, mk (searchTerm s) (filterType s) None [])
  end.
End NotesManager.

(** ** Reference notions for the statements *)

(** One edit: a character inserted, deleted or replaced somewhere. *)
Inductive edit1 : jsstring -> jsstring -> Prop :=
| edit_insert : forall u c v, edit1 (u ++ v) (u ++ c :: v)
| edit_delete : forall u c v, edit1 (u ++ c :: v) (u ++ v)
| edit_substitute : forall u c d v, edit1 (u ++ c :: v) (u ++ d :: v).

(** [edits n s t]: [n] edits in a row turn [s] into [t]. *)
Inductive edits : nat -> jsstring -> jsstring -> Prop :=
| edits_done : forall s, edits 0 s s
| edits_step : forall n s t u, edit1 s t -> edits n t u -> edits (S n) s u.

(** The recurrence of the table, on the characters read from the front:
    [lev s t] is the cell whose row stands for [s] and whose column stands
    for [t]. *)
Fixpoint lev (s t : jsstring) : nat :=
  match s with
  | [] => length t
  | c :: s' =>
      (fix lev_row (t : jsstring) : nat :=
         match t with
         | [] => S (length s')
         | d :: t' =>
             if Ascii.eqb c d then lev s' t'
             else Nat.min (lev s' t' + 1)
                    (Nat.min (lev_row t' + 1) (lev s' t + 1))
         end) t
  end.

(** The cell [(i, j)] of the table of [str1] and [str2], and the first
    [n] cells of its row [i]. *)
Definition tableCell (str1 str2 : jsstring) (i j : nat) : nat :=
  lev (rev (firstn i str2)) (rev (firstn j str1)).

Definition tableRow (str1 str2 : jsstring) (i n : nat) : list nat :=
  map (tableCell str1 str2 i) (seq 0 n).

(** The table when the outer loop is about to fill row [i]. *)
Definition tableBefore (str1 str2 : jsstring) (i : nat) : Matrix :=
  map (fun i' => tableRow str1 str2 i' (S (length str1))) (seq 0 i)
  ++ map (fun i' => tableRow str1 str2 i' 1) (seq i (S (length str2) - i)).

(** Deduplication as the specification words it: a candidate is compared
    with the candidates kept so far only. *)
Fixpoint keepDissimilar (kept rest : list Reminder.t) : list Reminder.t :=
  match rest with
  | [] => []
  | r :: rest' =>
      if forallb (fun k => JS.le (similarity (Reminder.text k)
                                             (Reminder.text r)) (7 # 10))
                 kept
      then r :: keepDissimilar (kept ++ [r]) rest'
      else keepDissimilar kept rest'
  end.

Definition dedupeAgainstKept (candidates : list Reminder.t)
  : list Reminder.t :=
  keepDissimilar [] candidates.

(** The matches of the [k]-th pattern of [reminderPatterns], as
    [(index, match[0], match[1])]. *)
Definition matchesOf (k : nat) (text : string)
  : list (nat * string * option string) :=
  match nth_error reminderPatterns k with
  | Some re =>
      map (fun m => (index m, string_of_list_ascii (match0 m),
                     option_map string_of_list_ascii (match1 m)))
          (execAll re (str text))
  | None => []
  end.

(** [duplicateOf earlier r]: some candidate of [earlier] has a text more
    than 0.7 similar to the text of [r]. *)
Definition duplicateOf (earlier : list Reminder.t) (r : Reminder.t) : bool :=
  some (fun existing =>
          JS.gt (similarity (Reminder.text existing) (Reminder.text r))
                (7 # 10))
       earlier.

Definition priority_eqb (p q : Priority) : bool :=
  match p, q with
  | high, high | medium, medium | low, low => true
  | _, _ => false
  end.

Definition hasPriority (p : Priority) (r : Reminder.t) : bool :=
  priority_eqb (Reminder.priority r) p.

(** Descending order of the weights. *)
Definition notLighter (a b : Reminder.t) : Prop :=
  (priorityOrder (Reminder.priority b)
   <= priorityOrder (Reminder.priority a))%Z.

(** What [extractTimeHint] makes of a pattern that matches. *)
Definition hintOf (pattern : RegExp.t) : jsstring :=
  replaceFirst (stripMetaChars (source pattern)) (str "i").

(** The fields of a reminder other than [isCompleted]. *)
Definition exceptCompleted (r : Reminder.t) :=
  (Reminder.id r, Reminder.noteId r, Reminder.text r,
   Reminder.extractedFrom r, Reminder.priority r, Reminder.category r,
   Reminder.suggestedTime r, Reminder.isDismissed r, Reminder.createdAt r).

(** The fields of a reminder other than [isDismissed]. *)
Definition exceptDismissed (r : Reminder.t) :=
  (Reminder.id r, Reminder.noteId r, Reminder.text r,
   Reminder.extractedFrom r, Reminder.priority r, Reminder.category r,
   Reminder.suggestedTime r, Reminder.isCompleted r, Reminder.createdAt r).

(** Note, text and completion of a reminder, for display. *)
Definition flagsOf (r : Reminder.t) : string * string * bool :=
  (string_of_list_ascii (Reminder.noteId r),
   string_of_list_ascii (Reminder.text r), Reminder.isCompleted r).

(** The key of the merge. *)
Definition mergeKey (r : Reminder.t) : jsstring :=
  Reminder.noteId r ++ Reminder.text r.

(** A reminder without its identifier. *)
Definition withoutId (r : Reminder.t) : Reminder.t :=
  Reminder.mk [] (Reminder.noteId r) (Reminder.text r)
    (Reminder.extractedFrom r) (Reminder.priority r) (Reminder.category r)
    (Reminder.suggestedTime r) (Reminder.isCompleted r)
    (Reminder.isDismissed r) (Reminder.createdAt r).

(** [dissimilar a b]: the comparison of line 109 is false for the texts of
    [a] and [b]. *)
Definition dissimilar (a b : Reminder.t) : Prop :=
  JS.gt (similarity (Reminder.text a) (Reminder.text b)) (7 # 10) = false.

(** [subseq l1 l2]: [l1] is [l2] with some elements left out. *)
Inductive subseq {A : Type} : list A -> list A -> Prop :=
| subseq_nil : subseq [] []
| subseq_skip : forall x l1 l2, subseq l1 l2 -> subseq l1 (x :: l2)
| subseq_keep : forall x l1 l2, subseq l1 l2 -> subseq (x :: l1) (x :: l2).

(** What the extractor reads of a note. *)
Definition noteCore (note : Note.t) : jsstring * jsstring * jsstring :=
  (Note.id note, noteText note, Note.timestamp note).

(** [madeFrom env notes r]: [r] looks as pushed for one of [notes]. *)
Definition madeFrom (env : Env) (notes : list Note.t) (r : Reminder.t) : Prop :=
  Reminder.isCompleted r = false /\
  Reminder.isDismissed r = false /\
  exists note,
    In note notes /\
    Reminder.noteId r = Note.id note /\
    Reminder.createdAt r = Note.timestamp note /\
    Reminder.suggestedTime r = extractTimeHint (noteText note) /\
    exists k, Reminder.id r = reminderId env note k.

(** The number of matches of the seven patterns in the texts of [notes]. *)
Definition matchCount (notes : list Note.t) : nat :=
  list_sum
    (map (fun note =>
            list_sum
              (map (fun pattern => length (execAll pattern (noteText note)))
                   reminderPatterns))
         notes).

(** [matchesInOrder len from ms]: the matches [ms] lie one after the
    other between [from] and [len], none of them empty. *)
Fixpoint matchesInOrder (len from : nat) (ms : list MatchResult) : Prop :=
  match ms with
  | [] => True
  | m :: rest =>
      from <= index m /\ index m < endIndex m /\ endIndex m <= len /\
      matchesInOrder len (endIndex m) rest
  end.

(** The keyword groups of [categorizeReminder], in its order. *)
Definition categoryKeywords : list (list string * string) :=
  [ (["exercise"; "workout"; "gym"; "run"; "walk"; "jog"; "stretch"; "yoga";
      "fitness"], "fitness");
    (["drink"; "water"; "hydrate"], "hydration");
    (["sleep"; "bed"; "rest"], "sleep");
    (["meditat"; "mindfulness"; "breathe"], "mindfulness");
    (["read"; "study"; "learn"], "learning");
    (["call"; "meeting"; "appointment"; "work"], "work");
    (["eat"; "meal"; "food"; "cook"], "nutrition") ].

(** The name of the first group one of whose keywords occurs in [s]. *)
Fixpoint firstCategory (groups : list (list string * string)) (s : jsstring)
  : jsstring :=
  match groups with
  | [] => str "general"
  | (keywords, name) :: rest =>
      if existsb (fun w => includes s (str w)) keywords then str name
      else firstCategory rest s
  end.

(** The phrases of [timePatterns] and what [extractTimeHint] returns for
    each. *)
Definition timePhrases : list string :=
  ["tomorrow"; "today"; "tonight"; "this morning"; "this afternoon";
   "this evening"; "this week"; "next week"; "this month"].

Definition timeHints : list jsstring :=
  map str ["tomorrow"; "today"; "tonght"; "ths morning"; "ths afternoon";
           "ths evening"; "ths week"; "next week"; "ths month"].

(** [sameLetters a b]: [a] is [b] up to the case of its letters. *)
Definition sameLetters (a b : jsstring) : Prop :=
  map canonicalize a = map canonicalize b.

Definition isSome {A : Type} (o : option A) : bool :=
  match o with Some _ => true | None => false end.

(** How a pattern character is compared: by canonical form under the
    flag [i], as it is otherwise. *)
Definition folded (ic : bool) (s : jsstring) : jsstring :=
  if ic then map canonicalize s else s.

(** The category names. *)
Definition categoryNames : list jsstring :=
  map str ["fitness"; "hydration"; "sleep"; "mindfulness"; "learning";
           "work"; "nutrition"; "general"].

(** [solid w]: [w] is not empty and neither begins nor ends with white
    space. *)
Definition solid (w : jsstring) : bool :=
  match w, rev w with
  | c :: _, d :: _ => negb (isWhiteSpace c) && negb (isWhiteSpace d)
  | _, _ => false
  end.

(** The fields of a reminder other than the two flags. *)
Definition exceptFlags (r : Reminder.t) :=
  (Reminder.id r, Reminder.noteId r, Reminder.text r,
   Reminder.extractedFrom r, Reminder.priority r, Reminder.category r,
   Reminder.suggestedTime r, Reminder.createdAt r).

(** What a user can do to the list of reminders. *)
Inductive Action : Type :=
| Complete (reminderId : jsstring)
| Dismiss (reminderId : jsstring)
| ShowCompleted (b : bool).

Definition act (c : Component) (a : Action) : Component :=
  match a with
  | Complete reminderId => completeReminder reminderId c
  | Dismiss reminderId => dismissReminder reminderId c
  | ShowCompleted b => setShowCompleted b c
  end.

Definition actAll (c : Component) (actions : list Action) : Component :=
  fold_left act actions c.

(** The tags that [extractTags] can give, in its order. *)
Definition tagNames : list jsstring :=
  map str ["fitness"; "hydration"; "sleep"; "learning"; "mindfulness"].

(** A note as the page makes it: a text note has no transcript, a voice
    note has an empty content. *)
Definition pageMade (note : Note.t) : Prop :=
  match Note.type note with
  | text_note => Note.transcript note = None
  | voice_note => Note.content note = []
  end.

(** The fields of a note that an edit leaves alone. *)
Definition noteFrame (note : Note.t) :=
  (Note.id note, Note.timestamp note, Note.type note, Note.tags note).







(** ** Sample inputs *)

Definition sampleEnv : Env :=
  mkEnv (fun k => (1700000000000 + N.of_nat k)%N) (fun _ => str "0.25").

Definition laterEnv : Env :=
  mkEnv (fun k => (1700000360000 + N.of_nat k)%N) (fun _ => str "0.75").

Definition textNote (id body : string) : Note.t :=
  Note.mk (str id) (str body) None (str "2023-11-14T22:13:20.000Z")
    text_note None.

(** Three lines whose texts are similar in a chain: the second to the
    first, the third to the second, but not the third to the first. *)
Definition chainNote : Note.t :=
  Note.mk (str "1700000000000")
    (str "need to abcdefghij" ++ [LF] ++ str "need to abcdefghXY" ++ [LF]
     ++ str "need to abcdefZWXY")
    None (str "2023-11-14T22:13:20.000Z") text_note None.

(** Two notes for which the identifier of the second is the identifier of
    the first followed by the head of the first reminder text. *)
Definition collidingNotes : list Note.t :=
  [ textNote "n" "need to buy milk and pay rent";
    textNote "nbuy milk and " "need to pay rent" ].

Definition mounted (ns : list Note.t) : Component :=
  mkComponent ns [] false false [] 0.

(** * Properties *)

(** ** Arrays and loops *)

Lemma bind_some {A B : Type} (x : option A) (f : A -> option B) (a : A) :
  x = Some a -> bind x f = f a.
Proof. intros ->. reflexivity. Qed.

Lemma write_append {A : Type} (a : list A) (v : A) :
  write a (length a) v = Some (a ++ [v]).
Proof.
  unfold write. rewrite Nat.ltb_irrefl, Nat.eqb_refl. reflexivity.
Qed.

Lemma write_inside {A : Type} (a b : list A) (x v : A) :
  write (a ++ x :: b) (length a) v = Some (a ++ v :: b).
Proof.
  unfold write.
  assert (H : length a < length (a ++ x :: b))
    by (rewrite length_app; simpl; lia).
  apply Nat.ltb_lt in H. rewrite H. clear H. f_equal.
  induction a as [|y a IH]; simpl; [reflexivity|].
  f_equal. exact IH.
Qed.

Lemma for_loop_app {S : Type} (n m start : nat) (body : nat -> S -> option S)
  (s s' : S) :
  for_loop n start body s = Some s' ->
  for_loop (n + m) start body s = for_loop m (start + n) body s'.
Proof.
  revert start s. induction n as [|n IH]; intros start s H; simpl in *.
  - injection H as ->. rewrite Nat.add_0_r. reflexivity.
  - destruct (body start s) as [s1|]; [|discriminate].
    rewrite (IH _ _ H). f_equal. lia.
Qed.

(** ** The table of [levenshteinDistance] *)

Lemma cell_prev (A B : Matrix) (prev cur : list nat) (j : nat) :
  cell (A ++ prev :: cur :: B) (length A) j = nth_error prev j.
Proof.
  unfold cell. rewrite nth_error_app2 by lia.
  rewrite Nat.sub_diag. reflexivity.
Qed.

Lemma cell_cur (A B : Matrix) (prev cur : list nat) (j : nat) :
  cell (A ++ prev :: cur :: B) (S (length A)) j = nth_error cur j.
Proof.
  unfold cell. rewrite nth_error_app2 by lia.
  replace (S (length A) - length A) with 1 by lia. reflexivity.
Qed.

Lemma set_cell_cur (A B : Matrix) (prev cur : list nat) (v : nat) :
  set_cell (A ++ prev :: cur :: B) (S (length A)) (length cur) v
  = Some (A ++ prev :: (cur ++ [v]) :: B).
Proof.
  unfold set_cell. rewrite nth_error_app2 by lia.
  replace (S (length A) - length A) with 1 by lia. simpl.
  rewrite write_append.
  replace (A ++ prev :: cur :: B) with ((A ++ [prev]) ++ cur :: B)
    by (rewrite <- app_assoc; reflexivity).
  replace (S (length A)) with (length (A ++ [prev]))
    by (rewrite length_app; simpl; lia).
  rewrite write_inside, <- app_assoc. reflexivity.
Qed.

Section Table.
Variables str1 str2 : jsstring.

Let T := tableCell str1 str2.
Let row := tableRow str1 str2.

Lemma tableRow_length (i n : nat) : length (row i n) = n.
Proof. unfold row, tableRow. rewrite length_map, length_seq. reflexivity. Qed.

Lemma tableRow_nth (i n j : nat) :
  j < n -> nth_error (row i n) j = Some (T i j).
Proof.
  intros H. unfold row, tableRow.
  rewrite nth_error_map, nth_error_seq.
  apply Nat.ltb_lt in H. rewrite H. reflexivity.
Qed.

Lemma tableRow_S (i n : nat) : row i (S n) = row i n ++ [T i n].
Proof. unfold row, tableRow. rewrite seq_S, map_app. reflexivity. Qed.

Lemma rev_firstn_S (s : jsstring) (i : nat) (c : ascii) :
  nth_error s i = Some c -> rev (firstn (S i) s) = c :: rev (firstn i s).
Proof.
  revert i. induction s as [|x s IH]; intros [|i] H; simpl in *;
    try discriminate.
  - injection H as ->. reflexivity.
  - rewrite (IH _ H). simpl. reflexivity.
Qed.

Lemma tableCell_0_l (j : nat) : j <= length str1 -> T 0 j = j.
Proof.
  intros H. unfold T, tableCell. simpl.
  rewrite length_rev, length_firstn. lia.
Qed.

Lemma lev_nil_r (s : jsstring) : lev s [] = length s.
Proof. destruct s; reflexivity. Qed.

Lemma tableCell_0_r (i : nat) : i <= length str2 -> T i 0 = i.
Proof.
  intros H. unfold T, tableCell. simpl.
  rewrite lev_nil_r, length_rev, length_firstn. lia.
Qed.

(** The recurrence that the inner loop computes. *)
Lemma tableCell_step (i j : nat) :
  1 <= i <= length str2 -> 1 <= j <= length str1 ->
  T i j =
    if charAt_eqb (charAt str2 (i - 1)) (charAt str1 (j - 1))
    then T (i - 1) (j - 1)
    else Nat.min (T (i - 1) (j - 1) + 1)
           (Nat.min (T i (j - 1) + 1) (T (i - 1) j + 1)).
Proof.
  intros Hi Hj.
  destruct i as [|i]; [lia|]. destruct j as [|j]; [lia|].
  simpl. rewrite !Nat.sub_0_r. unfold charAt.
  destruct (nth_error str2 i) as [c|] eqn:E2;
    [|apply nth_error_None in E2; lia].
  destruct (nth_error str1 j) as [d|] eqn:E1;
    [|apply nth_error_None in E1; lia].
  unfold T, tableCell.
  rewrite (rev_firstn_S _ _ E2), (rev_firstn_S _ _ E1).
  reflexivity.
Qed.

(** One round of the inner loop appends the next cell of the row. *)
Lemma levenshtein_step_row (A B : Matrix) (i j : nat) :
  1 <= i <= length str2 -> 1 <= j <= length str1 ->
  length A = i - 1 ->
  levenshtein_step str1 str2 i j
    (A ++ row (i - 1) (S (length str1)) :: row i j :: B)
  = Some (A ++ row (i - 1) (S (length str1)) :: row i (S j) :: B).
Proof.
  intros Hi Hj HA. unfold levenshtein_step.
  assert (Ei : i = S (length A)) by lia.
  assert (Ep : i - 1 = length A) by lia.
  assert (C1 : cell (A ++ row (i - 1) (S (length str1)) :: row i j :: B)
                 (i - 1) (j - 1) = Some (T (i - 1) (j - 1))).
  { pose proof (cell_prev A B (row (i - 1) (S (length str1))) (row i j)
                  (j - 1)) as H.
    rewrite <- Ep in H. rewrite H. apply tableRow_nth. lia. }
  assert (C2 : cell (A ++ row (i - 1) (S (length str1)) :: row i j :: B)
                 i (j - 1) = Some (T i (j - 1))).
  { pose proof (cell_cur A B (row (i - 1) (S (length str1))) (row i j)
                  (j - 1)) as H.
    rewrite <- Ei in H. rewrite H. apply tableRow_nth. lia. }
  assert (C3 : cell (A ++ row (i - 1) (S (length str1)) :: row i j :: B)
                 (i - 1) j = Some (T (i - 1) j)).
  { pose proof (cell_prev A B (row (i - 1) (S (length str1))) (row i j) j)
      as H.
    rewrite <- Ep in H. rewrite H. apply tableRow_nth. lia. }
  assert (W : forall v,
             set_cell (A ++ row (i - 1) (S (length str1)) :: row i j :: B) i j v
             = Some (A ++ row (i - 1) (S (length str1)) :: (row i j ++ [v]) :: B)).
  { intros v.
    pose proof (set_cell_cur A B (row (i - 1) (S (length str1))) (row i j) v)
      as H.
    rewrite <- Ei, tableRow_length in H. exact H. }
  rewrite (tableRow_S i j), (tableCell_step Hi Hj).
  destruct (charAt_eqb (charAt str2 (i - 1)) (charAt str1 (j - 1))).
  - rewrite C1. simpl. apply W.
  - rewrite C1. simpl. rewrite C2. simpl. rewrite C3. simpl. apply W.
Qed.

Lemma levenshtein_inner (A B : Matrix) (i n j : nat) :
  1 <= i <= length str2 -> 1 <= j -> j + n <= S (length str1) ->
  length A = i - 1 ->
  for_loop n j (levenshtein_step str1 str2 i)
    (A ++ row (i - 1) (S (length str1)) :: row i j :: B)
  = Some (A ++ row (i - 1) (S (length str1)) :: row i (j + n) :: B).
Proof.
  intros Hi. revert j. induction n as [|n IH]; intros j Hj Hn HA; simpl.
  - rewrite Nat.add_0_r. reflexivity.
  - assert (Hj' : 1 <= j <= length str1) by lia.
    rewrite (levenshtein_step_row A B Hi Hj' HA).
    assert (Hj1 : 1 <= S j) by lia.
    assert (Hn1 : S j + n <= S (length str1)) by lia.
    rewrite (IH (S j) Hj1 Hn1 HA).
    replace (S j + n) with (j + S n) by lia. reflexivity.
Qed.

Lemma levenshtein_outer (n i : nat) :
  1 <= i -> i + n <= S (length str2) ->
  for_loop n i
    (fun i m => for_loop (length str1) 1 (levenshtein_step str1 str2 i) m)
    (tableBefore str1 str2 i)
  = Some (tableBefore str1 str2 (i + n)).
Proof.
  revert i. induction n as [|n IH]; intros i Hi Hn; simpl.
  - rewrite Nat.add_0_r. reflexivity.
  - assert (E : tableBefore str1 str2 i
                = map (fun i' => row i' (S (length str1))) (seq 0 (i - 1))
                  ++ row (i - 1) (S (length str1)) :: row i 1
                  :: map (fun i' => row i' 1) (seq (S i) (length str2 - i))).
    { unfold tableBefore.
      assert (Es : seq 0 i = seq 0 (i - 1) ++ [i - 1]).
      { destruct i as [|k]; [lia|].
        replace (S k - 1) with k by lia. apply seq_S. }
      rewrite Es.
      replace (seq i (S (length str2) - i))
        with (i :: seq (S i) (length str2 - i))
        by (replace (S (length str2) - i) with (S (length str2 - i)) by lia;
            reflexivity).
      rewrite map_app, <- app_assoc. reflexivity. }
    rewrite E.
    rewrite levenshtein_inner
      by (try lia; rewrite length_map, length_seq; reflexivity).
    replace (i + S n) with (S i + n) by lia.
    rewrite <- IH by lia. f_equal.
    unfold tableBefore.
    replace (seq 0 (S i)) with (seq 0 (i - 1) ++ [i - 1; i])
      by (replace (S i) with ((i - 1) + 2) by lia; rewrite seq_app;
          simpl; do 3 f_equal; lia).
    rewrite map_app, <- app_assoc. simpl.
    replace (1 + length str1) with (S (length str1)) by lia.
    replace (length str2 - i) with (S (length str2) - S i) by lia.
    reflexivity.
Qed.

Lemma table_init_rows (n start : nat) :
  for_loop n start (fun i (m : Matrix) => write m i [i])
    (map (fun i => [i]) (seq 0 start))
  = Some (map (fun i => [i]) (seq 0 (start + n))).
Proof.
  revert start. induction n as [|n IH]; intros start; simpl.
  - rewrite Nat.add_0_r. reflexivity.
  - replace start with (length (map (fun i => [i]) (seq 0 start))) at 2
      by (rewrite length_map, length_seq; reflexivity).
    rewrite write_append.
    replace (map (fun i => [i]) (seq 0 start) ++ [[start]])
      with (map (fun i => [i]) (seq 0 (S start)))
      by (rewrite seq_S, map_app; reflexivity).
    rewrite IH. do 3 f_equal. lia.
Qed.

Lemma table_init_row0 (B : Matrix) (n start : nat) :
  1 <= start ->
  for_loop n start (fun j m => set_cell m 0 j j) (seq 0 start :: B)
  = Some (seq 0 (start + n) :: B).
Proof.
  revert start. induction n as [|n IH]; intros start Hs; simpl.
  - rewrite Nat.add_0_r. reflexivity.
  - unfold set_cell at 1. simpl.
    replace start with (length (seq 0 start)) at 2
      by (rewrite length_seq; reflexivity).
    rewrite write_append. unfold write. simpl.
    rewrite <- seq_S. rewrite IH by lia. do 3 f_equal. lia.
Qed.

Lemma levenshteinMatrix_table :
  levenshteinMatrix str1 str2 = Some (tableBefore str1 str2 (S (length str2))).
Proof.
  unfold levenshteinMatrix.
  erewrite bind_some by (exact (table_init_rows (S (length str2)) 0)).
  change (0 + S (length str2)) with (S (length str2)).
  change (seq 0 (S (length str2))) with (0 :: seq 1 (length str2)).
  change (map (fun i => [i]) (0 :: seq 1 (length str2)))
    with ([0] :: map (fun i => [i]) (seq 1 (length str2))).
  assert (H0 : for_loop (S (length str1)) 0 (fun j m => set_cell m 0 j j)
                 ([0] :: map (fun i => [i]) (seq 1 (length str2)))
               = Some (seq 0 (S (length str1))
                       :: map (fun i => [i]) (seq 1 (length str2)))).
  { simpl. unfold set_cell at 1. simpl. unfold write at 1 2. simpl.
    apply table_init_row0 with (start := 1). lia. }
  rewrite (bind_some _ H0).
  assert (E : seq 0 (S (length str1))
              :: map (fun i => [i]) (seq 1 (length str2))
              = tableBefore str1 str2 1).
  { unfold tableBefore.
    change (seq 0 1) with [0].
    replace (S (length str2) - 1) with (length str2) by lia.
    change (map (fun i' => tableRow str1 str2 i' (S (length str1))) [0])
      with [tableRow str1 str2 0 (S (length str1))].
    change ([tableRow str1 str2 0 (S (length str1))]
            ++ map (fun i' => tableRow str1 str2 i' 1) (seq 1 (length str2)))
      with (tableRow str1 str2 0 (S (length str1))
            :: map (fun i' => tableRow str1 str2 i' 1) (seq 1 (length str2))).
    f_equal.
    - unfold tableRow.
      rewrite <- (map_id (seq 0 (S (length str1)))) at 1.
      apply map_ext_in. intros j Hj. apply in_seq in Hj.
      symmetry. apply tableCell_0_l. lia.
    - apply map_ext_in. intros i Hi. apply in_seq in Hi.
      unfold tableRow. change (seq 0 1) with [0].
      change (map (tableCell str1 str2 i) [0]) with [tableCell str1 str2 i 0].
      f_equal. symmetry. apply tableCell_0_r. lia. }
  rewrite E.
  rewrite levenshtein_outer by lia. reflexivity.
Qed.

(** The program returns the last cell of the table: it never reads an
    undefined cell. *)
Lemma levenshteinDistance_table :
  levenshteinDistance str1 str2 = Some (lev (rev str2) (rev str1)).
Proof.
  unfold levenshteinDistance.
  rewrite (bind_some _ levenshteinMatrix_table).
  unfold tableBefore, cell.
  rewrite Nat.sub_diag. simpl map at 2. rewrite app_nil_r.
  rewrite nth_error_map, nth_error_seq.
  assert (H : (length str2 <? S (length str2)) = true)
    by (apply Nat.ltb_lt; lia).
  rewrite H. simpl option_map. cbv iota beta.
  fold (row (length str2) (S (length str1))). rewrite tableRow_nth by lia.
  unfold T, tableCell. rewrite !firstn_all. reflexivity.
Qed.

End Table.

Example levenshteinDistance_kitten :
  levenshteinDistance (str "kitten") (str "sitting") = Some 3.
Proof. reflexivity. Qed.

(** ** The recurrence and the edit distance *)

Lemma lev_cons_cons (c d : ascii) (s t : jsstring) :
  lev (c :: s) (d :: t) =
    if Ascii.eqb c d then lev s t
    else Nat.min (lev s t + 1) (Nat.min (lev (c :: s) t + 1) (lev s (d :: t) + 1)).
Proof. reflexivity. Qed.

Lemma lev_cons_nil (c : ascii) (s : jsstring) : lev (c :: s) [] = S (length s).
Proof. reflexivity. Qed.

(** One more character on either side moves the value by at most one. *)
Lemma lev_neighbours (n : nat) :
  forall s t, length s + length t <= n ->
  forall c,
    lev (c :: s) t <= S (lev s t) /\ lev s t <= S (lev (c :: s) t) /\
    lev s (c :: t) <= S (lev s t) /\ lev s t <= S (lev s (c :: t)).
Proof.
  induction n as [|n IH]; intros s t Hn c.
  - destruct s, t; simpl in Hn; try lia. simpl. lia.
  - repeat split.
    + destruct t as [|d t].
      * rewrite lev_cons_nil, lev_nil_r. lia.
      * rewrite lev_cons_cons. destruct (Ascii.eqb c d).
        -- simpl in Hn. apply (IH s t); lia.
        -- lia.
    + destruct t as [|d t].
      * rewrite lev_cons_nil, lev_nil_r. lia.
      * rewrite lev_cons_cons. simpl in Hn.
        assert (H := IH s t ltac:(lia)).
        destruct (H d) as (_ & _ & U1 & _). destruct (H c) as (_ & L2 & _ & _).
        destruct (Ascii.eqb c d); lia.
    + destruct s as [|e s].
      * simpl. lia.
      * rewrite lev_cons_cons. simpl in Hn.
        assert (H := IH s t ltac:(lia)).
        destruct (H e) as (_ & L2 & _ & _).
        destruct (Ascii.eqb e c); lia.
    + destruct s as [|e s].
      * simpl. lia.
      * rewrite lev_cons_cons. simpl in Hn.
        assert (H := IH s t ltac:(lia)).
        destruct (H e) as (U2 & _ & _ & _). destruct (H c) as (_ & _ & _ & L1).
        destruct (Ascii.eqb e c); lia.
Qed.

Lemma lev_cons_l_le (c : ascii) (s t : jsstring) :
  lev (c :: s) t <= S (lev s t).
Proof. apply (lev_neighbours (n := length s + length t)). lia. Qed.

Lemma lev_le_cons_l (c : ascii) (s t : jsstring) :
  lev s t <= S (lev (c :: s) t).
Proof. apply (lev_neighbours (n := length s + length t)). lia. Qed.

Lemma lev_cons_r_le (c : ascii) (s t : jsstring) :
  lev s (c :: t) <= S (lev s t).
Proof. apply (lev_neighbours (n := length s + length t)). lia. Qed.

Lemma lev_le_cons_r (c : ascii) (s t : jsstring) :
  lev s t <= S (lev s (c :: t)).
Proof. apply (lev_neighbours (n := length s + length t)). lia. Qed.

Lemma lev_diag (s : jsstring) : lev s s = 0.
Proof.
  induction s as [|c s IH]; [reflexivity|].
  rewrite lev_cons_cons, Ascii.eqb_refl. exact IH.
Qed.

(** Chains of edits. *)
Lemma edit1_cons (c : ascii) (s t : jsstring) :
  edit1 s t -> edit1 (c :: s) (c :: t).
Proof.
  intros [u x v|u x v|u x y v].
  - apply (edit_insert (c :: u) x v).
  - apply (edit_delete (c :: u) x v).
  - apply (edit_substitute (c :: u) x y v).
Qed.

Lemma edits_cons (c : ascii) (n : nat) (s t : jsstring) :
  edits n s t -> edits n (c :: s) (c :: t).
Proof.
  induction 1 as [s|n s t u H1 _ IH].
  - constructor.
  - apply edits_step with (c :: t); [apply edit1_cons; exact H1|exact IH].
Qed.

Lemma edits_snoc (n : nat) (s t u : jsstring) :
  edits n s t -> edit1 t u -> edits (S n) s u.
Proof.
  induction 1 as [s|n s t w H1 _ IH]; intros H.
  - apply edits_step with u; [exact H|constructor].
  - apply edits_step with t; [exact H1|apply IH; exact H].
Qed.

Lemma edit1_sym (s t : jsstring) : edit1 s t -> edit1 t s.
Proof. intros [u x v|u x v|u x y v]; constructor. Qed.

Lemma edits_sym (n : nat) (s t : jsstring) : edits n s t -> edits n t s.
Proof.
  induction 1 as [s|n s t u H1 _ IH].
  - constructor.
  - apply edits_snoc with t; [exact IH|apply edit1_sym; exact H1].
Qed.

Lemma edit1_rev (s t : jsstring) : edit1 s t -> edit1 (rev s) (rev t).
Proof.
  intros [u x v|u x v|u x y v]; rewrite !rev_app_distr; simpl;
    rewrite <- ?app_assoc; simpl; constructor.
Qed.

Lemma edits_rev (n : nat) (s t : jsstring) :
  edits n s t -> edits n (rev s) (rev t).
Proof.
  induction 1 as [s|n s t u H1 _ IH].
  - constructor.
  - apply edits_step with (rev t); [apply edit1_rev; exact H1|exact IH].
Qed.

Lemma edits_insert_all (t : jsstring) : edits (length t) [] t.
Proof.
  induction t as [|d t IH]; simpl.
  - constructor.
  - apply edits_step with [d].
    + apply (edit_insert [] d []).
    + apply edits_cons. exact IH.
Qed.

Lemma edits_delete_all (s : jsstring) : edits (length s) s [].
Proof. apply edits_sym, edits_insert_all. Qed.

(** The recurrence is reached by a chain of edits ... *)
Lemma lev_reached (s t : jsstring) : edits (lev s t) s t.
Proof.
  revert t. induction s as [|c s IHs]; intros t.
  - apply edits_insert_all.
  - induction t as [|d t IHt].
    + rewrite lev_cons_nil. apply (edits_delete_all (c :: s)).
    + rewrite lev_cons_cons. destruct (Ascii.eqb c d) eqn:E.
      * apply Ascii.eqb_eq in E. subst d. apply edits_cons, IHs.
      * rewrite !Nat.add_1_r.
        destruct (Nat.min_spec (lev s t) (Nat.min (lev (c :: s) t) (lev s (d :: t))))
          as [[_ M]|[_ M]];
          rewrite <- Nat.succ_min_distr, <- Nat.succ_min_distr, M.
        -- apply edits_step with (d :: s).
           ++ apply (edit_substitute [] c d s).
           ++ apply edits_cons, IHs.
        -- destruct (Nat.min_spec (lev (c :: s) t) (lev s (d :: t)))
             as [[_ M']|[_ M']]; rewrite M'.
           ++ apply edits_snoc with t; [exact IHt|].
              apply (edit_insert [] d t).
           ++ apply edits_step with s; [|apply IHs].
              apply (edit_delete [] c s).
Qed.

(** ... and one edit moves it by at most one ... *)
Lemma lev_under_cons (x : ascii) (a b : jsstring) :
  (forall t, lev a t <= S (lev b t)) ->
  forall t, lev (x :: a) t <= S (lev (x :: b) t).
Proof.
  intros H t. induction t as [|e t IHt].
  - rewrite !lev_cons_nil. specialize (H []). rewrite !lev_nil_r in H. lia.
  - rewrite !lev_cons_cons.
    assert (H1 := H t). assert (H2 := H (e :: t)).
    destruct (Ascii.eqb x e); lia.
Qed.

Lemma lev_substitute_head (c d : ascii) (v t : jsstring) :
  lev (c :: v) t <= S (lev (d :: v) t).
Proof.
  induction t as [|e t IHt].
  - rewrite !lev_cons_nil. lia.
  - rewrite !lev_cons_cons.
    assert (U2 := lev_cons_l_le c v (e :: t)).
    assert (U1 := lev_cons_r_le e (c :: v) t).
    assert (U0 := lev_cons_r_le e v t).
    assert (L2 := lev_le_cons_l d v t).
    assert (L1 := lev_le_cons_r e v t).
    destruct (Ascii.eqb c e), (Ascii.eqb d e); lia.
Qed.

Lemma lev_edit1 (s s' : jsstring) :
  edit1 s s' -> forall t, lev s t <= S (lev s' t).
Proof.
  intros [u x v|u x v|u x y v].
  - induction u as [|a u IH]; simpl.
    + intros t. apply lev_le_cons_l.
    + apply lev_under_cons. exact IH.
  - induction u as [|a u IH]; simpl.
    + intros t. apply lev_cons_l_le.
    + apply lev_under_cons. exact IH.
  - induction u as [|a u IH]; simpl.
    + intros t. apply lev_substitute_head.
    + apply lev_under_cons. exact IH.
Qed.

(** ... so no chain is shorter. *)
Lemma lev_least (n : nat) (s t : jsstring) : edits n s t -> lev s t <= n.
Proof.
  induction 1 as [s|n s t u H1 _ IH].
  - rewrite lev_diag. lia.
  - assert (H := lev_edit1 H1 u). lia.
Qed.

Lemma lev_sym (s t : jsstring) : lev s t = lev t s.
Proof.
  apply Nat.le_antisymm; apply lev_least, edits_sym, lev_reached.
Qed.

Lemma lev_rev (s t : jsstring) : lev (rev s) (rev t) = lev s t.
Proof.
  apply Nat.le_antisymm.
  - apply lev_least, edits_rev, lev_reached.
  - apply lev_least.
    assert (H := edits_rev (lev_reached (rev s) (rev t))).
    rewrite !rev_involutive in H. exact H.
Qed.

Lemma lev_le_max (s t : jsstring) : lev s t <= Nat.max (length s) (length t).
Proof.
  revert t. induction s as [|c s IH]; intros t.
  - simpl. lia.
  - destruct t as [|d t].
    + rewrite lev_cons_nil. simpl. lia.
    + rewrite lev_cons_cons. specialize (IH t). simpl.
      destruct (Ascii.eqb c d); lia.
Qed.

(** The value of the program, in terms of the recurrence. *)
Lemma levenshteinDistance_lev (str1 str2 : jsstring) :
  levenshteinDistance str1 str2 = Some (lev str1 str2).
Proof.
  rewrite levenshteinDistance_table, lev_rev. f_equal. apply lev_sym.
Qed.

(** C8: [levenshteinDistance(a, b)] is the edit distance of [a] and [b]:
    some chain of that many insertions, deletions and substitutions of one
    character turns [a] into [b], and no chain that does is shorter. *)
Theorem levenshteinDistance_edit_distance (a b : jsstring) :
  exists d,
    levenshteinDistance a b = Some d /\
    edits d a b /\
    (forall n, edits n a b -> d <= n).
Proof.
  exists (lev a b). split; [apply levenshteinDistance_lev|].
  split; [apply lev_reached|]. intros n. apply lev_least.
Qed.

(** ** [similarity] *)

(** The quotient that [similarity] computes.  Both operands are integers
    below 2^53, so the number of the runtime is the double next to this
    rational; two calls with the same operands give the same double, and
    a quotient of equal operands is exactly 1. *)
Lemma similarity_value (str1 str2 : jsstring) :
  similarity str1 str2 =
    let n := Nat.max (length str1) (length str2) in
    JS.div (Z.of_nat n - Z.of_nat (lev str1 str2)) (Z.of_nat n).
Proof.
  unfold similarity. rewrite levenshteinDistance_lev.
  destruct (length str2 <? length str1) eqn:E; cbv zeta.
  - apply Nat.ltb_lt in E. rewrite Nat.max_l by lia. reflexivity.
  - apply Nat.ltb_ge in E. rewrite Nat.max_r by lia.
    rewrite (lev_sym str2 str1). reflexivity.
Qed.

Lemma similarity_comm (a b : jsstring) : similarity a b = similarity b a.
Proof.
  rewrite !similarity_value. cbv zeta.
  rewrite (Nat.max_comm (length b)), (lev_sym b a). reflexivity.
Qed.

Lemma similarity_finite (a b : jsstring) :
  a <> [] -> exists q, similarity a b = Finite q.
Proof.
  intros Ha. rewrite similarity_value. cbv zeta.
  destruct (Nat.max (length a) (length b)) as [|n] eqn:E.
  - destruct a; [congruence|cbn [length] in E; lia].
  - simpl Z.of_nat at 3. unfold JS.div. eexists. reflexivity.
Qed.

Lemma num_eqb_finite_refl (q : Q) : num_eqb (Finite q) (Finite q) = true.
Proof. simpl. apply Qeq_bool_iff. reflexivity. Qed.

Lemma similarity_diag (a : jsstring) :
  a <> [] -> num_eqb (similarity a a) (Finite 1) = true.
Proof.
  intros Ha. rewrite similarity_value. cbv zeta.
  rewrite Nat.max_id, lev_diag.
  destruct a as [|c a]; [congruence|].
  change (Z.of_nat (length (c :: a)))
    with (Z.pos (Pos.of_succ_nat (length a))).
  unfold JS.div, num_eqb.
  apply Qeq_bool_iff. unfold Qeq. cbn [Qnum Qden Z.of_nat]. lia.
Qed.

(** C7, as the code has it: for all strings [a] and [b] that are not both
    empty, [similarity(a, b) == similarity(b, a)], and
    [similarity(a, a) == 1] for every string [a] that is not empty.  (For
    two empty strings the quotient is 0/0.) *)
Theorem similarity_symmetric_nonempty (a b : jsstring) :
  a <> [] \/ b <> [] ->
  num_eqb (similarity a b) (similarity b a) = true /\
  (a <> [] -> num_eqb (similarity a a) (Finite 1) = true) /\
  (b <> [] -> num_eqb (similarity b b) (Finite 1) = true).
Proof.
  intros H. split; [|split; apply similarity_diag].
  rewrite <- (similarity_comm a b).
  destruct H as [H|H].
  - destruct (similarity_finite b H) as [q ->]. apply num_eqb_finite_refl.
  - destruct (similarity_finite a H) as [q Hq].
    rewrite (similarity_comm a b), Hq. apply num_eqb_finite_refl.
Qed.

Lemma similarity_symmetric_nonempty_witness :
  (str "drink water" <> [] \/ str "drink" <> []) /\
  num_eqb (similarity (str "drink water") (str "drink"))
          (similarity (str "drink") (str "drink water")) = true.
Proof.
  assert (N : str "drink water" <> [] \/ str "drink" <> [])
    by (left; discriminate).
  split; [exact N|].
  exact (proj1 (@similarity_symmetric_nonempty (str "drink water")
                  (str "drink") N)).
Defined.

(** C7, as stated, fails on the empty string: [similarity("", "")] is NaN,
    which equals neither 1 nor itself. *)
Lemma similarity_empty_counterexample :
  similarity [] [] = NaN /\
  num_eqb (similarity [] []) (Finite 1) = false /\
  num_eqb (similarity [] []) (similarity [] []) = false.
Proof. repeat split. Qed.

(** ** Removing the duplicates *)

Lemma filteri_from_ext {A : Type} (f g : A -> nat -> bool) (l : list A) :
  forall i,
    (forall k x, nth_error l k = Some x -> f x (i + k) = g x (i + k)) ->
    filteri_from f i l = filteri_from g i l.
Proof.
  induction l as [|x l IH]; intros i H; simpl; [reflexivity|].
  assert (Hx := H 0 x eq_refl). rewrite Nat.add_0_r in Hx. rewrite Hx.
  assert (Hl : filteri_from f (S i) l = filteri_from g (S i) l).
  { apply IH. intros k y Hk.
    replace (S i + k) with (i + S k) by lia. apply H. exact Hk. }
  rewrite Hl. reflexivity.
Qed.

Lemma filteri_from_snoc {A : Type} (f : A -> nat -> bool) (l : list A) (x : A) :
  forall i,
    filteri_from f i (l ++ [x])
    = filteri_from f i l ++ (if f x (i + length l) then [x] else []).
Proof.
  induction l as [|y l IH]; intros i; simpl.
  - rewrite Nat.add_0_r. destruct (f x i); reflexivity.
  - rewrite IH. replace (S i + length l) with (i + S (length l)) by lia.
    destruct (f y i); reflexivity.
Qed.

(** The candidates are read in order, and the last one stays exactly when
    it is no duplicate of a candidate before it, kept or not. *)
Lemma uniqueReminders_snoc (rs : list Reminder.t) (r : Reminder.t) :
  uniqueReminders (rs ++ [r])
  = uniqueReminders rs ++ (if duplicateOf rs r then [] else [r]).
Proof.
  unfold uniqueReminders, filteri. rewrite filteri_from_snoc. simpl.
  unfold slice0 at 2. rewrite firstn_app, firstn_all, Nat.sub_diag. simpl.
  rewrite app_nil_r. fold (duplicateOf rs r).
  destruct (duplicateOf rs r); simpl; f_equal;
    apply filteri_from_ext; intros k x Hk; simpl;
    unfold slice0; rewrite firstn_app;
    assert (Hlt : k < length rs) by (apply nth_error_Some; congruence);
    replace (k - length rs) with 0 by lia; simpl; rewrite app_nil_r;
    reflexivity.
Qed.

Lemma uniqueReminders_nil : uniqueReminders [] = [].
Proof. reflexivity. Qed.

Lemma filteri_from_positions {A : Type} (f : A -> nat -> bool) (l : list A) :
  forall i,
    filteri_from f i l
    = map snd (filter (fun ix => f (snd ix) (fst ix))
                      (combine (seq i (length l)) l)).
Proof.
  induction l as [|x l IH]; intros i; simpl; [reflexivity|].
  rewrite IH. destruct (f x i); reflexivity.
Qed.

Lemma duplicateOf_exists (earlier : list Reminder.t) (r : Reminder.t) :
  duplicateOf earlier r = true <->
  exists e, In e earlier /\
    JS.gt (similarity (Reminder.text e) (Reminder.text r)) (7 # 10) = true.
Proof. unfold duplicateOf, some. apply existsb_exists. Qed.

(** C2, as the code has it: going through the candidates in order,
    deduplication keeps a candidate exactly when its similarity with the
    text of every earlier candidate, kept or dropped, is not above 0.7; so
    a candidate that is similar to an earlier dropped candidate is dropped
    as well. *)
Theorem uniqueReminders_compares_all_earlier :
  (forall rs,
     uniqueReminders rs
     = map snd
         (filter (fun ir => negb (duplicateOf (firstn (fst ir) rs) (snd ir)))
                 (combine (seq 0 (length rs)) rs))) /\
  uniqueReminders [] = [] /\
  (forall rs r,
     (forall e, In e rs ->
        JS.gt (similarity (Reminder.text e) (Reminder.text r)) (7 # 10) = false) ->
     uniqueReminders (rs ++ [r]) = uniqueReminders rs ++ [r]) /\
  (forall rs r e,
     In e rs ->
     JS.gt (similarity (Reminder.text e) (Reminder.text r)) (7 # 10) = true ->
     uniqueReminders (rs ++ [r]) = uniqueReminders rs).
Proof.
  split.
  { intros rs. unfold uniqueReminders, filteri.
    rewrite filteri_from_positions. reflexivity. }
  split; [reflexivity|]. split.
  - intros rs r H. rewrite uniqueReminders_snoc.
    destruct (duplicateOf rs r) eqn:E; [|reflexivity].
    apply duplicateOf_exists in E. destruct E as (e & He & Hs).
    rewrite (H e He) in Hs. discriminate.
  - intros rs r e He Hs. rewrite uniqueReminders_snoc.
    assert (E : duplicateOf rs r = true)
      by (apply duplicateOf_exists; exists e; split; assumption).
    rewrite E. apply app_nil_r.
Qed.

(** C2, as stated, fails: of the three candidates of [chainNote] the third
    is at most 0.7 similar to the only kept candidate before it, the
    first, and is dropped all the same, because it is similar to the
    second, which was dropped.  Comparing with the kept candidates only
    would keep it. *)
Lemma uniqueReminders_kept_only_counterexample :
  let candidates := collectReminders sampleEnv [chainNote] in
  map Reminder.text candidates
    = [str "abcdefghij"; str "abcdefghXY"; str "abcdefZWXY"] /\
  map Reminder.text (uniqueReminders candidates) = [str "abcdefghij"] /\
  JS.le (similarity (str "abcdefghij") (str "abcdefZWXY")) (7 # 10) = true /\
  map Reminder.text (dedupeAgainstKept candidates)
    = [str "abcdefghij"; str "abcdefZWXY"] /\
  uniqueReminders candidates <> dedupeAgainstKept candidates.
Proof.
  cbv zeta. repeat split; try (vm_compute; reflexivity).
  intros H. apply (f_equal (@length _)) in H. vm_compute in H. discriminate.
Qed.

(** ** Sorting by priority *)

Section StableSort.
Variable A : Type.
Variable weight : A -> Z.

Let cmp (a b : A) : Z := (weight b - weight a)%Z.
Let heavier (a b : A) : Prop := (weight b <= weight a)%Z.

Lemma sort_insert_in (x y : A) (l : list A) :
  In y (sort_insert cmp x l) -> y = x \/ In y l.
Proof.
  induction l as [|z l IH]; simpl.
  - intros [H|[]]. left. symmetry. exact H.
  - destruct (cmp x z <=? 0)%Z.
    + intros [H|H]; [left; symmetry; exact H|right; exact H].
    + intros [H|H]; [right; left; exact H|].
      destruct (IH H) as [E|E]; [left; exact E|right; right; exact E].
Qed.

Lemma sort_insert_sorted (x : A) (l : list A) :
  StronglySorted heavier l -> StronglySorted heavier (sort_insert cmp x l).
Proof.
  induction 1 as [|z l Hs IH Hz]; simpl.
  - constructor; constructor.
  - destruct (cmp x z <=? 0)%Z eqn:E.
    + apply Z.leb_le in E. unfold cmp in E.
      constructor; [constructor; assumption|].
      constructor; [unfold heavier; lia|].
      rewrite Forall_forall in Hz |- *. intros y Hy.
      specialize (Hz y Hy). unfold heavier in *. lia.
    + apply Z.leb_gt in E. unfold cmp in E.
      constructor; [exact IH|].
      rewrite Forall_forall in Hz |- *. intros y Hy.
      destruct (sort_insert_in _ _ _ Hy) as [->|Hy'].
      * unfold heavier. lia.
      * apply Hz. exact Hy'.
Qed.

Lemma sort_sorted (l : list A) : StronglySorted heavier (sort cmp l).
Proof.
  induction l as [|x l IH]; simpl; [constructor|].
  apply sort_insert_sorted. exact IH.
Qed.

Lemma sort_insert_perm (x : A) (l : list A) :
  Permutation (sort_insert cmp x l) (x :: l).
Proof.
  induction l as [|z l IH]; simpl; [reflexivity|].
  destruct (cmp x z <=? 0)%Z; [reflexivity|].
  rewrite IH. apply perm_swap.
Qed.

Lemma sort_perm (l : list A) : Permutation (sort cmp l) l.
Proof.
  induction l as [|x l IH]; simpl; [reflexivity|].
  rewrite sort_insert_perm. constructor. exact IH.
Qed.

(** Elements of one weight keep their order. *)
Lemma sort_insert_stable (p : A -> bool) (x : A) (l : list A) :
  (forall a b, p a = true -> p b = true -> weight a = weight b) ->
  filter p (sort_insert cmp x l) = filter p (x :: l).
Proof.
  intros Hp. induction l as [|z l IH]; [reflexivity|].
  simpl sort_insert. destruct (cmp x z <=? 0)%Z eqn:E; [reflexivity|].
  apply Z.leb_gt in E. unfold cmp in E.
  simpl filter in *. rewrite IH.
  destruct (p x) eqn:Ex, (p z) eqn:Ez; try reflexivity.
  assert (H := Hp _ _ Ex Ez). lia.
Qed.

Lemma sort_stable (p : A -> bool) (l : list A) :
  (forall a b, p a = true -> p b = true -> weight a = weight b) ->
  filter p (sort cmp l) = filter p l.
Proof.
  intros Hp. induction l as [|x l IH]; [reflexivity|].
  simpl sort. rewrite (sort_insert_stable _ _ _ Hp). simpl. rewrite IH.
  reflexivity.
Qed.

End StableSort.

Lemma byPriority_weight :
  byPriority = fun a b =>
    (priorityOrder (Reminder.priority b)
     - priorityOrder (Reminder.priority a))%Z.
Proof. reflexivity. Qed.

Lemma hasPriority_weight (p : Priority) (a b : Reminder.t) :
  hasPriority p a = true -> hasPriority p b = true ->
  priorityOrder (Reminder.priority a) = priorityOrder (Reminder.priority b).
Proof.
  unfold hasPriority.
  destruct (Reminder.priority a), (Reminder.priority b), p;
    simpl; congruence.
Qed.

Lemma StronglySorted_nth {A : Type} (R : A -> A -> Prop) (l : list A) :
  StronglySorted R l ->
  forall i j a b, i < j -> nth_error l i = Some a -> nth_error l j = Some b ->
  R a b.
Proof.
  induction 1 as [|x l Hs IH Hx]; intros i j a b Hij Hi Hj.
  - destruct i; discriminate.
  - destruct j as [|j]; [lia|]. simpl in Hj.
    destruct i as [|i]; simpl in Hi.
    + injection Hi as ->. rewrite Forall_forall in Hx.
      apply Hx. eapply nth_error_In. exact Hj.
    + apply (IH i j); [lia|assumption|assumption].
Qed.

(** C4: the output of the extraction is in descending order of the
    weights high = 3, medium = 2, low = 1, so a medium item never comes
    before a high one nor a low item before a medium one, and the items of
    one priority stand in the order in which deduplication left them. *)
Theorem extractRemindersFromNotes_sorted (env : Env) (notes : list Note.t) :
  let out := extractRemindersFromNotes env notes in
  StronglySorted notLighter out /\
  (forall i j a b,
     i < j -> nth_error out i = Some a -> nth_error out j = Some b ->
     (Reminder.priority a = medium -> Reminder.priority b <> high) /\
     (Reminder.priority a = low -> Reminder.priority b <> medium) /\
     (Reminder.priority a = low -> Reminder.priority b <> high)) /\
  (forall p,
     filter (hasPriority p) out
     = filter (hasPriority p) (uniqueReminders (collectReminders env notes))) /\
  Permutation out (uniqueReminders (collectReminders env notes)).
Proof.
  cbv zeta. unfold extractRemindersFromNotes. rewrite byPriority_weight.
  assert (S := sort_sorted (fun r => priorityOrder (Reminder.priority r))
                 (uniqueReminders (collectReminders env notes))).
  split; [exact S|]. split; [|split].
  - intros i j a b Hij Hi Hj.
    assert (H := StronglySorted_nth S Hij Hi Hj). unfold notLighter in H.
    destruct (Reminder.priority a), (Reminder.priority b); simpl in H;
      repeat split; intros; try discriminate; lia.
  - intros p. apply sort_stable. apply hasPriority_weight.
  - apply sort_perm.
Qed.

(** ** The clock and the random generator reach the identifier only *)

Lemma pushMatch_withoutId (env1 env2 : Env) (note : Note.t) (text : jsstring)
  (m : MatchResult) (rs1 rs2 : list Reminder.t) :
  map withoutId rs1 = map withoutId rs2 ->
  map withoutId (pushMatch env1 note text rs1 m)
  = map withoutId (pushMatch env2 note text rs2 m).
Proof.
  intros H. unfold pushMatch.
  destruct (negb _ && _); [|exact H].
  rewrite !map_app, H. reflexivity.
Qed.

Lemma pushMatches_withoutId (env1 env2 : Env) (note : Note.t) (text : jsstring)
  (ms : list MatchResult) :
  forall rs1 rs2,
    map withoutId rs1 = map withoutId rs2 ->
    map withoutId (fold_left (pushMatch env1 note text) ms rs1)
    = map withoutId (fold_left (pushMatch env2 note text) ms rs2).
Proof.
  induction ms as [|m ms IH]; intros rs1 rs2 H; simpl; [exact H|].
  apply IH, pushMatch_withoutId, H.
Qed.

Lemma pushNote_withoutId (env1 env2 : Env) (note : Note.t)
  (rs1 rs2 : list Reminder.t) :
  map withoutId rs1 = map withoutId rs2 ->
  map withoutId (pushNote env1 rs1 note) = map withoutId (pushNote env2 rs2 note).
Proof.
  unfold pushNote. generalize reminderPatterns as ps. intros ps.
  revert rs1 rs2. induction ps as [|p ps IH]; intros rs1 rs2 H; simpl.
  - exact H.
  - apply IH, pushMatches_withoutId, H.
Qed.

Lemma collectReminders_withoutId (env1 env2 : Env) (notes : list Note.t) :
  map withoutId (collectReminders env1 notes)
  = map withoutId (collectReminders env2 notes).
Proof.
  unfold collectReminders.
  assert (G : forall rs1 rs2,
             map withoutId rs1 = map withoutId rs2 ->
             map withoutId (fold_left (pushNote env1) notes rs1)
             = map withoutId (fold_left (pushNote env2) notes rs2)).
  { induction notes as [|n ns IH]; intros rs1 rs2 H; simpl; [exact H|].
    apply IH, pushNote_withoutId, H. }
  apply G. reflexivity.
Qed.

Lemma duplicateOf_map (f : Reminder.t -> Reminder.t) (rs : list Reminder.t)
  (r : Reminder.t) :
  (forall x, Reminder.text (f x) = Reminder.text x) ->
  duplicateOf (map f rs) (f r) = duplicateOf rs r.
Proof.
  intros Hf. unfold duplicateOf, some. rewrite Hf.
  induction rs as [|x rs IH]; simpl; [reflexivity|].
  rewrite Hf, IH. reflexivity.
Qed.

Lemma uniqueReminders_map (f : Reminder.t -> Reminder.t) (rs : list Reminder.t) :
  (forall x, Reminder.text (f x) = Reminder.text x) ->
  uniqueReminders (map f rs) = map f (uniqueReminders rs).
Proof.
  intros Hf. induction rs as [|r rs IH] using rev_ind; [reflexivity|].
  rewrite map_app. simpl map.
  rewrite !uniqueReminders_snoc, IH, (duplicateOf_map _ _ _ Hf), map_app.
  destruct (duplicateOf rs r); reflexivity.
Qed.

Lemma sort_insert_map {A : Type} (cmp : A -> A -> Z) (f : A -> A) (x : A)
  (l : list A) :
  (forall a b, cmp (f a) (f b) = cmp a b) ->
  sort_insert cmp (f x) (map f l) = map f (sort_insert cmp x l).
Proof.
  intros Hf. induction l as [|y l IH]; simpl; [reflexivity|].
  rewrite Hf. destruct (cmp x y <=? 0)%Z; simpl; [reflexivity|].
  rewrite IH. reflexivity.
Qed.

Lemma sort_map {A : Type} (cmp : A -> A -> Z) (f : A -> A) (l : list A) :
  (forall a b, cmp (f a) (f b) = cmp a b) ->
  JS.sort cmp (map f l) = map f (JS.sort cmp l).
Proof.
  intros Hf. induction l as [|x l IH]; simpl; [reflexivity|].
  rewrite IH. apply sort_insert_map. exact Hf.
Qed.

Lemma extract_withoutId (env : Env) (notes : list Note.t) :
  map withoutId (extractRemindersFromNotes env notes)
  = JS.sort byPriority
      (uniqueReminders (map withoutId (collectReminders env notes))).
Proof.
  unfold extractRemindersFromNotes.
  rewrite uniqueReminders_map by reflexivity.
  rewrite sort_map by reflexivity. reflexivity.
Qed.

Lemma extract_withoutId_env (env1 env2 : Env) (notes : list Note.t) :
  map withoutId (extractRemindersFromNotes env1 notes)
  = map withoutId (extractRemindersFromNotes env2 notes).
Proof.
  rewrite !extract_withoutId.
  rewrite (collectReminders_withoutId env1 env2). reflexivity.
Qed.

(** C1, as the code has it: two runs of the extraction on the same notes,
    whatever the clock and the random generator answer in each, yield the
    same candidates in the same order in every field but [id]. *)
Theorem extractRemindersFromNotes_deterministic_but_id
  (env1 env2 : Env) (notes : list Note.t) :
  map withoutId (extractRemindersFromNotes env1 notes)
  = map withoutId (extractRemindersFromNotes env2 notes).
Proof. apply extract_withoutId_env. Qed.

(** C1, as stated, fails: the candidates of a second run carry other
    identifiers than those of the first, since line 90 puts the time and a
    random number into each. *)
Lemma extractRemindersFromNotes_id_counterexample :
  let notes := [textNote "1700000000000" "I need to exercise tomorrow"] in
  map Reminder.id (extractRemindersFromNotes sampleEnv notes)
    = [str "1700000000000-1700000000000-0.25";
       str "1700000000000-1700000000001-0.25"] /\
  map Reminder.id (extractRemindersFromNotes laterEnv notes)
    = [str "1700000000000-1700000360000-0.75";
       str "1700000000000-1700000360001-0.75"] /\
  extractRemindersFromNotes sampleEnv notes
  <> extractRemindersFromNotes laterEnv notes.
Proof.
  cbv zeta. repeat split; try (vm_compute; reflexivity).
  intros H. apply (f_equal (map Reminder.id)) in H. vm_compute in H.
  discriminate.
Qed.

(** ** The two scenarios *)

Lemma extract_single (env : Env) (note : Note.t) :
  extractRemindersFromNotes env [note]
  = JS.sort byPriority
      (uniqueReminders
         (fold_left
            (fun reminders pattern =>
               fold_left (pushMatch env note (noteText note))
                 (execAll pattern (noteText note)) reminders)
            reminderPatterns [])).
Proof. reflexivity. Qed.

(** C5, as the code has it: a single note whose text is
    [I need to exercise tomorrow] yields exactly two candidates, with the
    texts [exercise tomorrow] (the trigger phrase [need to]) and [exercise]
    (the fitness pattern), each of category fitness, priority medium and
    suggested time [tomorrow]. *)
Theorem exercise_tomorrow_candidates (env : Env) (note : Note.t) :
  noteText note = str "I need to exercise tomorrow" ->
  extractRemindersFromNotes env [note]
  = [ Reminder.mk (reminderId env note 0) (Note.id note)
        (str "exercise tomorrow") (str "I need to exercise tomorrow")
        medium (str "fitness") (Some (str "tomorrow")) false false
        (Note.timestamp note);
      Reminder.mk (reminderId env note 1) (Note.id note)
        (str "exercise") (str "I need to exercise tomorrow")
        medium (str "fitness") (Some (str "tomorrow")) false false
        (Note.timestamp note) ].
Proof.
  intros H. rewrite extract_single, H.
  vm_compute. reflexivity.
Qed.

Lemma exercise_tomorrow_candidates_witness :
  noteText (textNote "1700000000000" "I need to exercise tomorrow")
  = str "I need to exercise tomorrow" /\
  map Reminder.text
    (extractRemindersFromNotes sampleEnv
       [textNote "1700000000000" "I need to exercise tomorrow"])
  = [str "exercise tomorrow"; str "exercise"].
Proof.
  split; [reflexivity|].
  rewrite (@exercise_tomorrow_candidates sampleEnv
             (textNote "1700000000000" "I need to exercise tomorrow")
             eq_refl).
  reflexivity.
Defined.

(** C5, as stated, fails: the note yields two candidates, not one. *)
Lemma exercise_tomorrow_counterexample :
  length (extractRemindersFromNotes sampleEnv
            [textNote "1700000000000" "I need to exercise tomorrow"]) = 2 /\
  length (extractRemindersFromNotes sampleEnv
            [textNote "1700000000000" "I need to exercise tomorrow"]) <> 1.
Proof. split; [vm_compute; reflexivity|vm_compute; discriminate]. Qed.

(** C6, as the code has it: a single note whose text is
    [urgent: call the doctor asap] yields no candidate, since the text has
    no trigger phrase and no topic word of the seven patterns;
    [determinePriority] of that text is high. *)
Theorem urgent_call_no_candidate (env : Env) (note : Note.t) :
  noteText note = str "urgent: call the doctor asap" ->
  extractRemindersFromNotes env [note] = [] /\
  determinePriority (noteText note) = high.
Proof.
  intros H. rewrite extract_single, H.
  split; vm_compute; reflexivity.
Qed.

Lemma urgent_call_no_candidate_witness :
  noteText (textNote "1700000000000" "urgent: call the doctor asap")
  = str "urgent: call the doctor asap" /\
  extractRemindersFromNotes sampleEnv
    [textNote "1700000000000" "urgent: call the doctor asap"] = [] /\
  determinePriority
    (noteText (textNote "1700000000000" "urgent: call the doctor asap"))
  = high.
Proof.
  split; [reflexivity|].
  apply (@urgent_call_no_candidate sampleEnv
           (textNote "1700000000000" "urgent: call the doctor asap")).
  reflexivity.
Defined.

(** C6, as stated, fails: the extraction of the note has no candidate at
    all, hence none of priority high. *)
Lemma urgent_call_counterexample :
  ~ exists r,
      In r (extractRemindersFromNotes sampleEnv
              [textNote "1700000000000" "urgent: call the doctor asap"]) /\
      Reminder.priority r = high.
Proof.
  intros (r & Hr & _). vm_compute in Hr. exact Hr.
Qed.

(** ** The time hint *)

Lemma firstTimeHint_find (patterns : list RegExp.t) (text : jsstring) :
  firstTimeHint patterns text
  = option_map hintOf (find (fun pattern => test pattern text) patterns).
Proof.
  induction patterns as [|p ps IH]; simpl; [reflexivity|].
  destruct (test p text); [reflexivity|exact IH].
Qed.

(** C10: [extractTimeHint] returns the source of the first pattern that
    matches, without the characters of the class and without its first
    letter [i]: [tonght] when that pattern is [/tonight/i], [ths morning]
    when it is [/this morning/i], and so never the phrase that matched. *)
Theorem extractTimeHint_drops_first_i (text : jsstring) (pattern : RegExp.t) :
  find (fun pattern => test pattern text) timePatterns = Some pattern ->
  extractTimeHint text
    = Some (replaceFirst (stripMetaChars (source pattern)) (str "i")) /\
  (source pattern = str "tonight" ->
     extractTimeHint text = Some (str "tonght") /\
     forall s, extractTimeHint text = Some s ->
               toLowerCase s <> str "tonight") /\
  (source pattern = str "this morning" ->
     extractTimeHint text = Some (str "ths morning") /\
     forall s, extractTimeHint text = Some s ->
               toLowerCase s <> str "this morning").
Proof.
  intros H. unfold extractTimeHint. rewrite firstTimeHint_find, H.
  simpl option_map. unfold hintOf.
  split; [reflexivity|].
  split; intros E; rewrite E; (split; [reflexivity|]);
    intros s Hs; injection Hs as <-; vm_compute; discriminate.
Qed.

Lemma extractTimeHint_drops_first_i_witness :
  find (fun pattern => test pattern (str "Early to bed Tonight"))
    timePatterns = Some (timePattern "tonight") /\
  extractTimeHint (str "Early to bed Tonight") = Some (str "tonght").
Proof.
  split; [vm_compute; reflexivity|].
  apply (@extractTimeHint_drops_first_i (str "Early to bed Tonight")
           (timePattern "tonight")); vm_compute; reflexivity.
Defined.

(** ** The handlers *)

Lemma string_eqb_eq (a b : jsstring) : string_eqb a b = true <-> a = b.
Proof.
  unfold string_eqb. destruct (list_eq_dec ascii_dec a b); split;
    congruence.
Qed.

(** C9: [completeReminder] and [dismissReminder] leave the notes, the
    other state variables and the number of extraction runs as they are
    and keep the list of reminders position by position.  A reminder with
    another [id] is unchanged; one with the given [id] has [isCompleted]
    negated (respectively [isDismissed] set) and every other field as
    before. *)
Theorem complete_dismiss_frame (reminderId : jsstring) (c : Component) :
  let done := completeReminder reminderId c in
  let gone := dismissReminder reminderId c in
  (notes done = notes c /\ extractions done = extractions c /\
   showCompleted done = showCompleted c /\
   notificationsEnabled done = notificationsEnabled c /\
   length (reminders done) = length (reminders c)) /\
  (notes gone = notes c /\ extractions gone = extractions c /\
   showCompleted gone = showCompleted c /\
   notificationsEnabled gone = notificationsEnabled c /\
   notifications gone = notifications c /\
   length (reminders gone) = length (reminders c)) /\
  (forall i r,
     nth_error (reminders c) i = Some r ->
     exists r1 r2,
       nth_error (reminders done) i = Some r1 /\
       nth_error (reminders gone) i = Some r2 /\
       exceptCompleted r1 = exceptCompleted r /\
       exceptDismissed r2 = exceptDismissed r /\
       (Reminder.id r <> reminderId -> r1 = r /\ r2 = r) /\
       (Reminder.id r = reminderId ->
          Reminder.isCompleted r1 = negb (Reminder.isCompleted r) /\
          Reminder.isDismissed r2 = true)).
Proof.
  cbv zeta. unfold completeReminder, dismissReminder. simpl.
  rewrite !length_map.
  split; [repeat split|]. split; [repeat split|].
  intros i r Hi. rewrite !nth_error_map, Hi. simpl option_map.
  destruct (string_eqb (Reminder.id r) reminderId) eqn:E.
  - apply string_eqb_eq in E.
    eexists. eexists. repeat split; try reflexivity; congruence.
  - assert (N : Reminder.id r <> reminderId)
      by (intros H; apply string_eqb_eq in H; congruence).
    eexists. eexists. repeat split; try reflexivity; congruence.
Qed.

(** ** The pattern engine on samples *)

Example trigger_phrases :
  matchesOf 0 "Remind me to call mom. I MUST  stretch"
  = [(0, "Remind me to call mom.", Some "call mom");
     (25, "MUST  stretch", Some "stretch")].
Proof. vm_compute. reflexivity. Qed.

Example trigger_white_space_only :
  matchesOf 0 "need to     " = [(0, "need to     ", Some " ")].
Proof. vm_compute. reflexivity. Qed.

Example time_then_topic :
  matchesOf 1 "Tomorrow I will drink water and call Bob"
  = [(0, "Tomorrow I will drink", Some "drink")].
Proof. vm_compute. reflexivity. Qed.

Example fitness_words :
  matchesOf 2 "gym today, then run   this week and yoga this month"
  = [(0, "gym today", Some "gym"); (16, "run   this week", Some "run");
     (36, "yoga", Some "yoga")].
Proof. vm_compute. reflexivity. Qed.

Example sleep_words :
  matchesOf 4 "rest earlier; Bed early"
  = [(0, "rest earlier", Some "rest"); (14, "Bed early", Some "Bed")].
Proof. vm_compute. reflexivity. Qed.

(** ** The [while] loop over the matches ends *)

Lemma repeat_class_progress (ic : bool) (a : charclass) (greedy : bool)
  (k : cont) (z : result) (rest : jsstring) :
  forall min pos cap,
    repeat_class ic a min greedy k rest pos cap = Some z ->
    exists rest' pos',
      k rest' pos' cap = Some z /\ pos <= pos' /\ (min <> 0 -> pos < pos').
Proof.
  induction rest as [|c rest IH]; intros min pos cap H.
  - simpl in H. destruct (min =? 0) eqn:E; simpl in H.
    + apply Nat.eqb_eq in E.
      assert (K : k [] pos cap = Some z).
      { destruct greedy; [exact H|].
        destruct (k [] pos cap); [exact H|discriminate]. }
      exists [], pos. repeat split; [exact K|lia|lia].
    + discriminate.
  - simpl in H.
    assert (Again :
              (if class_match ic a c
               then repeat_class ic a (Nat.pred min) greedy k rest (S pos) cap
               else None) = Some z ->
              exists rest' pos',
                k rest' pos' cap = Some z /\ pos < pos').
    { destruct (class_match ic a c); [|discriminate].
      intros G. destruct (IH _ _ _ G) as (rest' & pos' & K & L & _).
      exists rest', pos'. split; [exact K|lia]. }
    destruct (min =? 0) eqn:E; simpl in H.
    + apply Nat.eqb_eq in E.
      destruct greedy.
      * destruct (if class_match ic a c
                  then repeat_class ic a (Nat.pred min) true k rest (S pos) cap
                  else None) as [z'|] eqn:G.
        -- injection H as ->.
           destruct (Again eq_refl) as (rest' & pos' & K & L).
           exists rest', pos'. repeat split; [exact K|lia|lia].
        -- exists (c :: rest), pos. repeat split; [exact H|lia|lia].
      * destruct (k (c :: rest) pos cap) as [z'|] eqn:G.
        -- injection H as ->.
           exists (c :: rest), pos. repeat split; [exact G|lia|lia].
        -- destruct (Again H) as (rest' & pos' & K & L).
           exists rest', pos'. repeat split; [exact K|lia|lia].
    + destruct (Again H) as (rest' & pos' & K & L).
      exists rest', pos'. repeat split; [exact K|lia|lia].
Qed.

(** A match ends where it began or later, and later when the pattern is
    not nullable. *)
Lemma rmatch_progress (ic : bool) (r : regex) :
  forall k rest pos cap z,
    rmatch ic r k rest pos cap = Some z ->
    exists rest' pos' cap',
      k rest' pos' cap' = Some z /\ pos <= pos' /\
      (nullable r = false -> pos < pos').
Proof.
  induction r as [|a| |r1 IH1 r2 IH2|r1 IH1 r2 IH2|r1 IH1|a min greedy|r1 IH1];
    intros k rest pos cap z H; simpl in H.
  - exists rest, pos, cap. repeat split; [exact H|lia|discriminate].
  - destruct rest as [|c rest]; [discriminate|].
    destruct (class_match ic a c); [|discriminate].
    exists rest, (S pos), cap. repeat split; [exact H|lia|lia].
  - destruct rest as [|c rest]; [|discriminate].
    exists [], pos, cap. repeat split; [exact H|lia|discriminate].
  - destruct (IH1 _ _ _ _ _ H) as (rest1 & pos1 & cap1 & H1 & L1 & N1).
    destruct (IH2 _ _ _ _ _ H1) as (rest2 & pos2 & cap2 & H2 & L2 & N2).
    exists rest2, pos2, cap2. repeat split; [exact H2|lia|].
    simpl. intros N. apply andb_false_iff in N. destruct N as [N|N].
    + specialize (N1 N). lia.
    + specialize (N2 N). lia.
  - simpl. destruct (rmatch ic r1 k rest pos cap) as [z'|] eqn:E.
    + injection H as ->.
      destruct (IH1 _ _ _ _ _ E) as (rest1 & pos1 & cap1 & H1 & L1 & N1).
      exists rest1, pos1, cap1. repeat split; [exact H1|lia|].
      intros N. apply orb_false_iff in N. apply N1, N.
    + destruct (IH2 _ _ _ _ _ H) as (rest2 & pos2 & cap2 & H2 & L2 & N2).
      exists rest2, pos2, cap2. repeat split; [exact H2|lia|].
      intros N. apply orb_false_iff in N. apply N2, N.
  - destruct (IH1 _ _ _ _ _ H) as (rest1 & pos1 & cap1 & H1 & L1 & N1).
    exists rest1, pos1, (Some (pos, pos1)). repeat split; [exact H1|lia|].
    exact N1.
  - destruct (repeat_class_progress _ _ _ _ _ _ _ _ H)
      as (rest' & pos' & K & L & N).
    exists rest', pos', cap. repeat split; [exact K|lia|].
    simpl. intros E. apply Nat.eqb_neq in E. apply N, E.
  - destruct (rmatch ic r1 _ rest pos cap) as [z'|] eqn:E.
    + injection H as ->.
      destruct (IH1 _ _ _ _ _ E) as (rest1 & pos1 & cap1 & H1 & L1 & _).
      destruct (pos1 =? pos); [discriminate|].
      exists rest1, pos1, cap1. repeat split; [exact H1|lia|discriminate].
    + exists rest, pos, cap. repeat split; [exact H|lia|discriminate].
Qed.

Lemma search_progress (ic : bool) (r : regex) (text : jsstring) (m : MatchResult) :
  nullable r = false ->
  forall rest pos,
    search ic r text rest pos = Some m -> pos < endIndex m.
Proof.
  intros N rest. induction rest as [|c rest IH]; intros pos H; simpl in H.
  - destruct (rmatch ic r _ [] pos None) as [[e cap]|] eqn:E; [|discriminate].
    injection H as <-. simpl.
    destruct (rmatch_progress _ _ _ _ _ _ E) as (? & pos' & cap' & K & _ & P).
    injection K as <- _. apply P, N.
  - destruct (rmatch ic r _ (c :: rest) pos None) as [[e cap]|] eqn:E.
    + injection H as <-. simpl.
      destruct (rmatch_progress _ _ _ _ _ _ E) as (? & pos' & cap' & K & _ & P).
      injection K as <- _. apply P, N.
    + specialize (IH _ H). lia.
Qed.

Lemma exec_progress (re : RegExp.t) (text : jsstring) (lastIndex : nat)
  (m : MatchResult) :
  nullable (pattern re) = false ->
  exec re text lastIndex = Some m -> lastIndex < endIndex m.
Proof.
  intros N H. unfold exec in H.
  destruct (length text <? lastIndex); [discriminate|].
  apply (search_progress _ _ _ N _ _ H).
Qed.

Lemma exec_beyond (re : RegExp.t) (text : jsstring) (lastIndex : nat) :
  length text < lastIndex -> exec re text lastIndex = None.
Proof.
  intros H. unfold exec. apply Nat.ltb_lt in H. rewrite H. reflexivity.
Qed.

(** With a pattern that is not nullable the loop has run out of matches
    before it runs out of rounds: more rounds add nothing. *)
Lemma execLoop_fuel (re : RegExp.t) (text : jsstring) :
  nullable (pattern re) = false ->
  forall fuel1 fuel2 lastIndex,
    length text < lastIndex + fuel1 -> length text < lastIndex + fuel2 ->
    execLoop fuel1 re text lastIndex = execLoop fuel2 re text lastIndex.
Proof.
  intros N. induction fuel1 as [|fuel1 IH]; intros fuel2 lastIndex H1 H2.
  - simpl. destruct fuel2; [reflexivity|]. simpl.
    rewrite exec_beyond by lia. reflexivity.
  - destruct fuel2 as [|fuel2].
    + simpl. rewrite exec_beyond by lia. reflexivity.
    + simpl. destruct (exec re text lastIndex) as [m|] eqn:E; [|reflexivity].
      f_equal. assert (P := exec_progress _ _ _ N E). apply IH; lia.
Qed.

Lemma reminderPatterns_not_nullable (re : RegExp.t) :
  In re reminderPatterns -> nullable (pattern re) = false.
Proof.
  intros H.
  assert (A : forallb (fun re => negb (nullable (pattern re))) reminderPatterns
              = true) by reflexivity.
  rewrite forallb_forall in A. apply negb_true_iff, A, H.
Qed.

(** The loops of the extractor end on every text: [execAll] lists all the
    matches, however many rounds are allowed beyond its own. *)
Lemma execAll_complete (re : RegExp.t) (text : jsstring) (n : nat) :
  In re reminderPatterns ->
  execLoop (S (length text) + n) re text 0 = execAll re text.
Proof.
  intros H. unfold execAll.
  apply execLoop_fuel; [apply reminderPatterns_not_nullable, H|lia|lia].
Qed.

(** ** The merge when no key is shared *)

Lemma string_eqb_refl (a : jsstring) : string_eqb a a = true.
Proof. apply string_eqb_eq. reflexivity. Qed.

Lemma Map_get_set {V : Type} (m : Map.t V) (k q : jsstring) (v : V) :
  Map.get (Map.set m k v) q
  = if string_eqb k q then Some v else Map.get m q.
Proof.
  induction m as [|[k' v'] m IH]; simpl; [reflexivity|].
  destruct (string_eqb k' k) eqn:E; simpl.
  - apply string_eqb_eq in E. subst k'.
    destruct (string_eqb k q); reflexivity.
  - rewrite IH. destruct (string_eqb k' q) eqn:E'; [|reflexivity].
    destruct (string_eqb k q) eqn:E''; [|reflexivity].
    apply string_eqb_eq in E', E''. subst.
    rewrite string_eqb_refl in E. discriminate.
Qed.

Lemma find_snoc {A : Type} (p : A -> bool) (l : list A) (x : A) :
  find p (l ++ [x])
  = match find p l with
    | Some y => Some y
    | None => if p x then Some x else None
    end.
Proof.
  induction l as [|y l IH]; simpl; [reflexivity|].
  destruct (p y); [reflexivity|exact IH].
Qed.

(** [get] answers with the last entry of the key. *)
Lemma Map_get_entries {V : Type} (entries : list (jsstring * V)) (q : jsstring) :
  forall m,
    Map.get (fold_left (fun m e => Map.set m (fst e) (snd e)) entries m) q
    = match find (fun e => string_eqb (fst e) q) (rev entries) with
      | Some e => Some (snd e)
      | None => Map.get m q
      end.
Proof.
  induction entries as [|e es IH]; intros m; simpl; [reflexivity|].
  rewrite IH, find_snoc, Map_get_set.
  destruct (find _ (rev es)); [reflexivity|].
  destruct (string_eqb (fst e) q); reflexivity.
Qed.






(** * Further properties of the code *)

(** ** The edit distance as a distance *)

Lemma edits_trans (n m : nat) (a b c : jsstring) :
  edits n a b -> edits m b c -> edits (n + m) a c.
Proof.
  induction 1 as [s|n s t u H1 _ IH]; intros H; simpl; [exact H|].
  apply edits_step with t; [exact H1|apply IH; exact H].
Qed.

Lemma lev_triangle (a b c : jsstring) : lev a c <= lev a b + lev b c.
Proof. apply lev_least, edits_trans with b; apply lev_reached. Qed.

Lemma edit1_length (s t : jsstring) : edit1 s t -> length s <= S (length t).
Proof.
  intros [u x v|u x v|u x y v]; rewrite !length_app; simpl; lia.
Qed.

Lemma edits_length (n : nat) (s t : jsstring) :
  edits n s t -> length s <= length t + n.
Proof.
  induction 1 as [s|n s t u H1 _ IH]; [lia|].
  apply edit1_length in H1. lia.
Qed.

Lemma lev_ge_length_l (s t : jsstring) : length s - length t <= lev s t.
Proof. assert (H := edits_length (lev_reached s t)). lia. Qed.

Lemma lev_ge_length_r (s t : jsstring) : length t - length s <= lev s t.
Proof. rewrite lev_sym. apply lev_ge_length_l. Qed.

Lemma lev_zero (s t : jsstring) : lev s t = 0 <-> s = t.
Proof.
  split; [|intros ->; apply lev_diag].
  intros H. assert (E := lev_reached s t). rewrite H in E.
  inversion E. reflexivity.
Qed.

(** X1: [levenshteinDistance] is a distance on strings: it is 0 exactly
    on equal strings, it does not depend on the order of its arguments,
    and it obeys the triangle inequality. *)
Theorem levenshteinDistance_metric (a b c : jsstring) :
  (levenshteinDistance a b = Some 0 <-> a = b) /\
  levenshteinDistance a b = levenshteinDistance b a /\
  (exists x y z,
     levenshteinDistance a b = Some x /\ levenshteinDistance b c = Some y /\
     levenshteinDistance a c = Some z /\ z <= x + y).
Proof.
  rewrite !levenshteinDistance_lev. repeat split.
  - intros H. injection H as H. apply lev_zero, H.
  - intros ->. rewrite lev_diag. reflexivity.
  - f_equal. apply lev_sym.
  - exists (lev a b), (lev b c), (lev a c).
    repeat split. apply lev_triangle.
Qed.

(** X2: the distance of two strings lies between the difference of their
    lengths and the greater length. *)
Theorem levenshteinDistance_bounds (a b : jsstring) :
  exists d,
    levenshteinDistance a b = Some d /\
    Nat.max (length a) (length b) - Nat.min (length a) (length b) <= d /\
    d <= Nat.max (length a) (length b).
Proof.
  exists (lev a b). rewrite levenshteinDistance_lev.
  split; [reflexivity|]. split; [|apply lev_le_max].
  assert (L := lev_ge_length_l a b). assert (R := lev_ge_length_r a b). lia.
Qed.

(** ** The range of [similarity] *)

Lemma similarity_quotient (a b : jsstring) (n : nat) :
  Nat.max (length a) (length b) = S n ->
  similarity a b
  = Finite ((Z.of_nat (S n) - Z.of_nat (lev a b)) # Pos.of_succ_nat n).
Proof.
  intros E. rewrite similarity_value. cbv zeta. rewrite E. reflexivity.
Qed.

Lemma similarity_both_empty (a b : jsstring) :
  Nat.max (length a) (length b) = 0 -> similarity a b = NaN.
Proof.
  intros E. destruct a, b; simpl in E; try lia. reflexivity.
Qed.

Lemma max_length_pos (a b : jsstring) :
  a <> [] \/ b <> [] -> exists n, Nat.max (length a) (length b) = S n.
Proof.
  intros H. destruct (Nat.max (length a) (length b)) as [|n] eqn:E.
  - destruct a, b; cbn [length] in E; try lia. destruct H; congruence.
  - exists n. reflexivity.
Qed.

Lemma similarity_in_unit_interval (a b : jsstring) :
  a <> [] \/ b <> [] ->
  exists q, similarity a b = Finite q /\ (0 <= q)%Q /\ (q <= 1)%Q /\
            ((q == 1)%Q <-> a = b).
Proof.
  intros H. destruct (max_length_pos H) as [n E].
  rewrite (similarity_quotient _ _ E). eexists. split; [reflexivity|].
  assert (U := lev_le_max a b). rewrite E in U.
  assert (P : Z.pos (Pos.of_succ_nat n) = Z.of_nat (S n))
    by (rewrite Zpos_P_of_succ_nat; lia).
  unfold Qle, Qeq. cbn [Qnum Qden]. rewrite P.
  repeat split; try lia.
  - intros Q. apply lev_zero. lia.
  - intros ->. rewrite lev_diag. lia.
Qed.

(** X3: for two strings that are not both empty, [similarity] is a
    number between 0 and 1, and it is 1 exactly when the strings are
    equal. *)
Theorem similarity_range (a b : jsstring) :
  a <> [] \/ b <> [] ->
  exists q, similarity a b = Finite q /\ (0 <= q)%Q /\ (q <= 1)%Q /\
            ((q == 1)%Q <-> a = b).
Proof. apply similarity_in_unit_interval. Qed.

Lemma similarity_range_witness :
  (str "drink" <> [] \/ str "drunk" <> []) /\
  exists q, similarity (str "drink") (str "drunk") = Finite q /\
            (0 <= q)%Q /\ (q <= 1)%Q /\
            ((q == 1)%Q <-> str "drink" = str "drunk").
Proof.
  assert (N : str "drink" <> [] \/ str "drunk" <> []) by (left; discriminate).
  split; [exact N|].
  exact (@similarity_range (str "drink") (str "drunk") N).
Defined.

Lemma not_similar_by_length (a b : jsstring) :
  10 * Nat.min (length a) (length b) <= 7 * Nat.max (length a) (length b) ->
  JS.gt (similarity a b) (7 # 10) = false.
Proof.
  intros H. destruct (Nat.max (length a) (length b)) as [|n] eqn:E.
  - rewrite (similarity_both_empty _ _ E). reflexivity.
  - rewrite (similarity_quotient _ _ E). unfold JS.gt.
    apply negb_false_iff, Qle_bool_iff.
    assert (L := lev_ge_length_l a b). assert (R := lev_ge_length_r a b).
    assert (P : Z.pos (Pos.of_succ_nat n) = Z.of_nat (S n))
      by (rewrite Zpos_P_of_succ_nat; lia).
    unfold Qle. cbn [Qnum Qden]. rewrite P. lia.
Qed.

(** X4: a text that is at most 70% as long as another is never taken
    for its duplicate: the similarity of the two is not above 0.7. *)
Theorem similarity_length_cutoff (a b : jsstring) :
  10 * Nat.min (length a) (length b) <= 7 * Nat.max (length a) (length b) ->
  JS.gt (similarity a b) (7 # 10) = false.
Proof. apply not_similar_by_length. Qed.

Lemma similarity_length_cutoff_witness :
  10 * Nat.min (length (str "exercise tomorrow")) (length (str "exercise"))
  <= 7 * Nat.max (length (str "exercise tomorrow")) (length (str "exercise")) /\
  JS.gt (similarity (str "exercise tomorrow") (str "exercise")) (7 # 10)
  = false.
Proof.
  assert (H : 10 * Nat.min (length (str "exercise tomorrow"))
                           (length (str "exercise"))
              <= 7 * Nat.max (length (str "exercise tomorrow"))
                             (length (str "exercise")))
    by (cbn; lia).
  split; [exact H|].
  exact (@similarity_length_cutoff (str "exercise tomorrow") (str "exercise") H).
Defined.

(** ** What deduplication leaves *)

Lemma ForallOrdPairs_snoc {A : Type} (R : A -> A -> Prop) (l : list A) (x : A) :
  ForallOrdPairs R l -> Forall (fun e => R e x) l ->
  ForallOrdPairs R (l ++ [x]).
Proof.
  induction 1 as [|y l Hy Hl IH]; intros F; simpl.
  - constructor; constructor.
  - inversion F as [|? ? Ryx Fl]; subst. constructor.
    + apply Forall_app. split; [exact Hy|]. constructor; [exact Ryx|constructor].
    + apply IH. exact Fl.
Qed.

Lemma ForallOrdPairs_snoc_inv {A : Type} (R : A -> A -> Prop) (l : list A)
  (x : A) :
  ForallOrdPairs R (l ++ [x]) ->
  ForallOrdPairs R l /\ Forall (fun e => R e x) l.
Proof.
  induction l as [|y l IH]; simpl; intros H.
  - split; constructor.
  - inversion H as [|? ? Hy Hl]; subst.
    apply Forall_app in Hy. destruct Hy as [Hy Hx].
    destruct (IH Hl) as [I1 I2]. split.
    + constructor; assumption.
    + constructor; [|exact I2]. inversion Hx. assumption.
Qed.

Lemma ForallOrdPairs_nth {A : Type} (R : A -> A -> Prop) (l : list A) :
  ForallOrdPairs R l ->
  forall i j a b, i < j -> nth_error l i = Some a -> nth_error l j = Some b ->
  R a b.
Proof.
  induction 1 as [|x l Hx Hl IH]; intros i j a b Hij Hi Hj.
  - destruct i; discriminate.
  - destruct j as [|j]; [lia|]. simpl in Hj.
    destruct i as [|i]; simpl in Hi.
    + injection Hi as ->. rewrite Forall_forall in Hx.
      apply Hx. eapply nth_error_In. exact Hj.
    + apply (IH i j); [lia|assumption|assumption].
Qed.

Lemma ForallOrdPairs_perm {A : Type} (R : A -> A -> Prop) (l l' : list A) :
  (forall a b, R a b -> R b a) ->
  Permutation l l' -> ForallOrdPairs R l -> ForallOrdPairs R l'.
Proof.
  intros Sym P. induction P as [|x l l' P IH|x y l|l l' l'' P1 IH1 P2 IH2];
    intros H.
  - exact H.
  - inversion H as [|? ? Hx Hl]; subst. constructor.
    + rewrite Forall_forall in Hx |- *. intros z Hz. apply Hx.
      eapply Permutation_in; [apply Permutation_sym; exact P|exact Hz].
    + apply IH, Hl.
  - inversion H as [|? ? Hy Hl]; subst.
    inversion Hl as [|? ? Hx Hl']; subst.
    inversion Hy as [|? ? Ryx Hy']; subst.
    constructor; [constructor; [apply Sym; exact Ryx|exact Hx]|].
    constructor; assumption.
  - apply IH2, IH1, H.
Qed.

Lemma duplicateOf_false (earlier : list Reminder.t) (r : Reminder.t) :
  duplicateOf earlier r = false <-> Forall (fun e => dissimilar e r) earlier.
Proof.
  unfold duplicateOf, some, dissimilar. rewrite Forall_forall. split.
  - intros H e He.
    destruct (JS.gt _ _) eqn:G; [|reflexivity].
    assert (X : existsb
                  (fun existing =>
                     JS.gt (similarity (Reminder.text existing)
                                       (Reminder.text r)) (7 # 10))
                  earlier = true)
      by (apply existsb_exists; exists e; split; assumption).
    congruence.
  - intros H. apply not_true_is_false. intros X.
    apply existsb_exists in X. destruct X as (e & He & G).
    rewrite (H e He) in G. discriminate.
Qed.

Lemma filteri_from_subseq {A : Type} (f : A -> nat -> bool) (l : list A) :
  forall i, subseq (filteri_from f i l) l.
Proof.
  induction l as [|x l IH]; intros i; simpl; [constructor|].
  destruct (f x i); constructor; apply IH.
Qed.

Lemma subseq_In {A : Type} (l1 l2 : list A) (x : A) :
  subseq l1 l2 -> In x l1 -> In x l2.
Proof.
  induction 1 as [|y l1 l2 _ IH|y l1 l2 _ IH]; simpl; intros H.
  - exact H.
  - right. apply IH, H.
  - destruct H as [H|H]; [left; exact H|right; apply IH, H].
Qed.

Lemma uniqueReminders_subseq (rs : list Reminder.t) :
  subseq (uniqueReminders rs) rs.
Proof. apply filteri_from_subseq. Qed.

Lemma uniqueReminders_pairwise (rs : list Reminder.t) :
  ForallOrdPairs dissimilar (uniqueReminders rs).
Proof.
  induction rs as [|r rs IH] using rev_ind; [constructor|].
  rewrite uniqueReminders_snoc.
  destruct (duplicateOf rs r) eqn:D; [rewrite app_nil_r; exact IH|].
  apply ForallOrdPairs_snoc; [exact IH|].
  apply duplicateOf_false in D. rewrite Forall_forall in D |- *.
  intros e He. apply D.
  eapply subseq_In; [apply uniqueReminders_subseq|exact He].
Qed.

Lemma uniqueReminders_fixed (l : list Reminder.t) :
  ForallOrdPairs dissimilar l -> uniqueReminders l = l.
Proof.
  induction l as [|r l IH] using rev_ind; intros H; [reflexivity|].
  apply ForallOrdPairs_snoc_inv in H. destruct H as [H1 H2].
  rewrite uniqueReminders_snoc, (IH H1).
  apply duplicateOf_false in H2. rewrite H2. reflexivity.
Qed.

(** X5: deduplication leaves the candidates out of which no earlier one
    is more than 0.7 similar to a later one; it leaves them in their
    order, without adding any; and it always keeps the first candidate. *)
Theorem uniqueReminders_invariant (rs : list Reminder.t) :
  ForallOrdPairs dissimilar (uniqueReminders rs) /\
  subseq (uniqueReminders rs) rs /\
  (forall r rest, rs = r :: rest ->
     exists kept, uniqueReminders rs = r :: kept).
Proof.
  split; [apply uniqueReminders_pairwise|].
  split; [apply uniqueReminders_subseq|].
  intros r rest ->. eexists. reflexivity.
Qed.

(** X6: deduplication changes nothing the second time, and the lists it
    leaves as they are are those in which no earlier candidate is more
    than 0.7 similar to a later one. *)
Theorem uniqueReminders_idempotent (rs : list Reminder.t) :
  uniqueReminders (uniqueReminders rs) = uniqueReminders rs /\
  (uniqueReminders rs = rs <-> ForallOrdPairs dissimilar rs).
Proof.
  split; [apply uniqueReminders_fixed, uniqueReminders_pairwise|].
  split; [|apply uniqueReminders_fixed].
  intros E. rewrite <- E. apply uniqueReminders_pairwise.
Qed.

Lemma dissimilar_sym (a b : Reminder.t) : dissimilar a b -> dissimilar b a.
Proof. unfold dissimilar. rewrite similarity_comm. exact (fun H => H). Qed.

Lemma similar_to_itself (s : jsstring) :
  s <> [] -> JS.gt (similarity s s) (7 # 10) = true.
Proof.
  intros H. destruct (@max_length_pos s s (or_introl H)) as [n E].
  rewrite (similarity_quotient _ _ E), lev_diag. unfold JS.gt.
  apply negb_true_iff, not_true_is_false. intros Q.
  apply Qle_bool_iff in Q. unfold Qle in Q. cbn [Qnum Qden] in Q.
  rewrite Zpos_P_of_succ_nat in Q. lia.
Qed.

Lemma extract_pairwise (env : Env) (notes : list Note.t) :
  ForallOrdPairs dissimilar (extractRemindersFromNotes env notes).
Proof.
  unfold extractRemindersFromNotes. rewrite byPriority_weight.
  eapply ForallOrdPairs_perm;
    [exact dissimilar_sym
    |apply Permutation_sym, sort_perm
    |apply uniqueReminders_pairwise].
Qed.

(** X7: no two reminders of one extraction are more than 0.7 similar,
    whatever their places after sorting; in particular no two of them have
    the same text, unless that text is empty. *)
Theorem extractRemindersFromNotes_distinct (env : Env) (notes : list Note.t) :
  forall i j a b,
    i <> j ->
    nth_error (extractRemindersFromNotes env notes) i = Some a ->
    nth_error (extractRemindersFromNotes env notes) j = Some b ->
    dissimilar a b /\
    (Reminder.text a = Reminder.text b -> Reminder.text a = []).
Proof.
  intros i j a b Hij Hi Hj.
  assert (D : dissimilar a b).
  { assert (P := extract_pairwise env notes).
    destruct (Nat.lt_ge_cases i j) as [L|L].
    - apply (ForallOrdPairs_nth P L Hi Hj).
    - apply dissimilar_sym.
      assert (L' : j < i) by lia. apply (ForallOrdPairs_nth P L' Hj Hi). }
  split; [exact D|].
  intros E. destruct (Reminder.text a) as [|c s] eqn:T; [reflexivity|].
  exfalso. unfold dissimilar in D. rewrite T, <- E in D.
  rewrite similar_to_itself in D; discriminate.
Qed.

Lemma extractRemindersFromNotes_distinct_witness :
  0 <> 1 /\
  dissimilar
    (nth 0 (extractRemindersFromNotes sampleEnv
              [textNote "1700000000000" "I need to exercise tomorrow"])
           (Reminder.mk [] [] [] [] low [] None false false []))
    (nth 1 (extractRemindersFromNotes sampleEnv
              [textNote "1700000000000" "I need to exercise tomorrow"])
           (Reminder.mk [] [] [] [] low [] None false false [])).
Proof.
  split; [discriminate|].
  refine (proj1 (@extractRemindersFromNotes_distinct sampleEnv
            [textNote "1700000000000" "I need to exercise tomorrow"]
            0 1 _ _ _ _ _)).
  - discriminate.
  - vm_compute. reflexivity.
  - vm_compute. reflexivity.
Defined.

(** ** What the extraction puts into a reminder *)

Lemma pushMatch_Forall (P : Reminder.t -> Prop) (env : Env) (note : Note.t)
  (text : jsstring) (m : MatchResult) (rs : list Reminder.t) :
  (forall k txt from pr cat,
     P (Reminder.mk (reminderId env note k) (Note.id note) txt from pr cat
          (extractTimeHint text) false false (Note.timestamp note))) ->
  Forall P rs -> Forall P (pushMatch env note text rs m).
Proof.
  intros New H. unfold pushMatch.
  destruct (negb _ && _); [|exact H].
  apply Forall_app. split; [exact H|]. constructor; [apply New|constructor].
Qed.

Lemma pushNote_Forall (P : Reminder.t -> Prop) (env : Env) (note : Note.t)
  (rs : list Reminder.t) :
  (forall k txt from pr cat,
     P (Reminder.mk (reminderId env note k) (Note.id note) txt from pr cat
          (extractTimeHint (noteText note)) false false
          (Note.timestamp note))) ->
  Forall P rs -> Forall P (pushNote env rs note).
Proof.
  intros New. unfold pushNote. generalize reminderPatterns as ps.
  intros ps. revert rs. induction ps as [|p ps IH]; intros rs H; simpl.
  - exact H.
  - apply IH. generalize (execAll p (noteText note)) as ms. intros ms.
    revert rs H. induction ms as [|m ms IHm]; intros rs H; simpl.
    + exact H.
    + apply IHm. apply pushMatch_Forall; [exact New|exact H].
Qed.

Lemma collectReminders_madeFrom (env : Env) (notes : list Note.t) :
  Forall (madeFrom env notes) (collectReminders env notes).
Proof.
  unfold collectReminders.
  assert (G : forall ns rs,
             (forall n, In n ns -> In n notes) ->
             Forall (madeFrom env notes) rs ->
             Forall (madeFrom env notes) (fold_left (pushNote env) ns rs)).
  { induction ns as [|n ns IH]; intros rs Hin H; simpl; [exact H|].
    apply IH; [intros x Hx; apply Hin; right; exact Hx|].
    apply pushNote_Forall; [|exact H].
    intros k txt from pr cat. unfold madeFrom.
    cbn [Reminder.isCompleted Reminder.isDismissed Reminder.noteId
         Reminder.createdAt Reminder.suggestedTime Reminder.id].
    split; [reflexivity|]. split; [reflexivity|].
    exists n. split; [apply Hin; left; reflexivity|].
    split; [reflexivity|]. split; [reflexivity|]. split; [reflexivity|].
    exists k. reflexivity. }
  apply G; [intros n H; exact H|constructor].
Qed.

Lemma extract_In_collect (env : Env) (notes : list Note.t) (r : Reminder.t) :
  In r (extractRemindersFromNotes env notes) ->
  In r (collectReminders env notes).
Proof.
  unfold extractRemindersFromNotes. rewrite byPriority_weight. intros H.
  eapply subseq_In; [apply uniqueReminders_subseq|].
  eapply Permutation_in; [apply sort_perm|exact H].
Qed.

Lemma extract_madeFrom (env : Env) (notes : list Note.t) (r : Reminder.t) :
  In r (extractRemindersFromNotes env notes) -> madeFrom env notes r.
Proof.
  intros H. apply extract_In_collect in H.
  assert (F := collectReminders_madeFrom env notes).
  rewrite Forall_forall in F. apply F, H.
Qed.

(** X8: every reminder that the extraction returns is neither completed
    nor dismissed and belongs to one of the notes given: it carries the
    note's id as [noteId], the note's timestamp as [createdAt], the time
    hint of the note's whole text as [suggestedTime], and an [id] that
    starts with the note's id. *)
Theorem extractRemindersFromNotes_fresh (env : Env) (notes : list Note.t)
  (r : Reminder.t) :
  In r (extractRemindersFromNotes env notes) ->
  Reminder.isCompleted r = false /\
  Reminder.isDismissed r = false /\
  exists note,
    In note notes /\
    Reminder.noteId r = Note.id note /\
    Reminder.createdAt r = Note.timestamp note /\
    Reminder.suggestedTime r = extractTimeHint (noteText note) /\
    exists k, Reminder.id r = reminderId env note k.
Proof. apply extract_madeFrom. Qed.

Lemma extractRemindersFromNotes_fresh_witness :
  let out := extractRemindersFromNotes sampleEnv
               [textNote "1700000000000" "I need to exercise tomorrow"] in
  let r := nth 0 out (Reminder.mk [] [] [] [] low [] None true true []) in
  In r out /\
  Reminder.isCompleted r = false /\ Reminder.isDismissed r = false.
Proof.
  cbv zeta.
  assert (H : In (nth 0 (extractRemindersFromNotes sampleEnv
                           [textNote "1700000000000"
                              "I need to exercise tomorrow"])
                        (Reminder.mk [] [] [] [] low [] None true true []))
                 (extractRemindersFromNotes sampleEnv
                    [textNote "1700000000000" "I need to exercise tomorrow"])).
  { apply nth_In. vm_compute. repeat constructor. }
  split; [exact H|].
  assert (F := @extractRemindersFromNotes_fresh sampleEnv _ _ H).
  split; apply F.
Defined.

(** ** Notes are read one by one *)

Lemma pushMatch_app (env : Env) (note : Note.t) (text : jsstring)
  (m : MatchResult) (rs : list Reminder.t) :
  map withoutId (pushMatch env note text rs m)
  = map withoutId rs ++ map withoutId (pushMatch env note text [] m).
Proof.
  unfold pushMatch. destruct (negb _ && _); simpl.
  - rewrite map_app. reflexivity.
  - rewrite app_nil_r. reflexivity.
Qed.

Lemma pushMatches_app (env : Env) (note : Note.t) (text : jsstring)
  (ms : list MatchResult) :
  forall rs,
    map withoutId (fold_left (pushMatch env note text) ms rs)
    = map withoutId rs
      ++ map withoutId (fold_left (pushMatch env note text) ms []).
Proof.
  induction ms as [|m ms IH]; intros rs; simpl.
  - rewrite app_nil_r. reflexivity.
  - rewrite IH, pushMatch_app, (IH (pushMatch env note text [] m)).
    rewrite app_assoc. reflexivity.
Qed.

Lemma pushNote_app (env : Env) (note : Note.t) (rs : list Reminder.t) :
  map withoutId (pushNote env rs note)
  = map withoutId rs ++ map withoutId (pushNote env [] note).
Proof.
  unfold pushNote. generalize reminderPatterns as ps. intros ps.
  revert rs. induction ps as [|p ps IH]; intros rs; simpl.
  - rewrite app_nil_r. reflexivity.
  - rewrite IH, pushMatches_app.
    rewrite (IH (fold_left (pushMatch env note (noteText note))
                   (execAll p (noteText note)) [])).
    rewrite app_assoc. reflexivity.
Qed.

Lemma collect_fold_app (env : Env) (notes : list Note.t) :
  forall rs,
    map withoutId (fold_left (pushNote env) notes rs)
    = map withoutId rs ++ map withoutId (collectReminders env notes).
Proof.
  unfold collectReminders.
  induction notes as [|n ns IH]; intros rs; simpl.
  - rewrite app_nil_r. reflexivity.
  - rewrite IH, pushNote_app, (IH (pushNote env [] n)).
    rewrite app_assoc. reflexivity.
Qed.

(** X9: before the duplicates are removed, the candidates of a list of
    notes are the candidates of its notes one after the other: apart from
    the identifiers, what a note contributes does not depend on the notes
    around it. *)
Theorem collectReminders_app (env : Env) (notes1 notes2 : list Note.t) :
  map withoutId (collectReminders env (notes1 ++ notes2))
  = map withoutId (collectReminders env notes1)
    ++ map withoutId (collectReminders env notes2).
Proof.
  unfold collectReminders at 1. rewrite fold_left_app.
  apply collect_fold_app.
Qed.

Lemma pushNote_core (env : Env) (rs : list Reminder.t) (n1 n2 : Note.t) :
  noteCore n1 = noteCore n2 -> pushNote env rs n1 = pushNote env rs n2.
Proof.
  unfold noteCore. intros H. injection H as Hi Ht Hs.
  unfold pushNote, pushMatch, reminderId. rewrite Hi, Ht, Hs. reflexivity.
Qed.

Lemma collectReminders_core (env : Env) (notes1 notes2 : list Note.t) :
  map noteCore notes1 = map noteCore notes2 ->
  collectReminders env notes1 = collectReminders env notes2.
Proof.
  unfold collectReminders. generalize (@nil Reminder.t) as rs.
  revert notes2. induction notes1 as [|n1 ns1 IH]; intros [|n2 ns2] rs H;
    simpl in *; try discriminate; [reflexivity|].
  assert (Hn : noteCore n1 = noteCore n2) by congruence.
  assert (Hs : map noteCore ns1 = map noteCore ns2) by congruence.
  rewrite (pushNote_core env rs Hn). apply IH, Hs.
Qed.

Lemma extract_core (env : Env) (notes1 notes2 : list Note.t) :
  map noteCore notes1 = map noteCore notes2 ->
  extractRemindersFromNotes env notes1 = extractRemindersFromNotes env notes2.
Proof.
  intros H. unfold extractRemindersFromNotes.
  rewrite (collectReminders_core env _ _ H). reflexivity.
Qed.

(** X10: the extraction reads three things of a note: its id, its text
    (the transcript, or the content when there is none or an empty one)
    and its timestamp.  Two lists of notes that agree on these give the
    same reminders; type and tags play no part. *)
Theorem extractRemindersFromNotes_reads_core
  (env : Env) (notes1 notes2 : list Note.t) :
  map noteCore notes1 = map noteCore notes2 ->
  extractRemindersFromNotes env notes1 = extractRemindersFromNotes env notes2.
Proof. apply extract_core. Qed.

Lemma extractRemindersFromNotes_reads_core_witness :
  map noteCore [Note.mk (str "7") (str "need to stretch") None (str "t")
                  text_note None]
  = map noteCore [Note.mk (str "7") (str "ignored") (Some (str "need to stretch"))
                    (str "t") voice_note (Some [str "fitness"])] /\
  extractRemindersFromNotes sampleEnv
    [Note.mk (str "7") (str "need to stretch") None (str "t") text_note None]
  = extractRemindersFromNotes sampleEnv
      [Note.mk (str "7") (str "ignored") (Some (str "need to stretch"))
         (str "t") voice_note (Some [str "fitness"])].
Proof.
  split; [reflexivity|].
  apply (@extractRemindersFromNotes_reads_core sampleEnv). reflexivity.
Defined.

(** ** How many reminders there can be *)

Lemma subseq_length {A : Type} (l1 l2 : list A) :
  subseq l1 l2 -> length l1 <= length l2.
Proof. induction 1; simpl; lia. Qed.

Lemma pushMatch_length (env : Env) (note : Note.t) (text : jsstring)
  (m : MatchResult) (rs : list Reminder.t) :
  length (pushMatch env note text rs m) <= S (length rs).
Proof.
  unfold pushMatch. destruct (negb _ && _); [|lia].
  rewrite length_app. simpl. lia.
Qed.

Lemma pushMatches_length (env : Env) (note : Note.t) (text : jsstring)
  (ms : list MatchResult) :
  forall rs,
    length (fold_left (pushMatch env note text) ms rs)
    <= length rs + length ms.
Proof.
  induction ms as [|m ms IH]; intros rs; simpl; [lia|].
  specialize (IH (pushMatch env note text rs m)).
  assert (H := pushMatch_length env note text m rs). lia.
Qed.

Lemma pushNote_length (env : Env) (note : Note.t) (rs : list Reminder.t) :
  length (pushNote env rs note)
  <= length rs
     + list_sum (map (fun pattern => length (execAll pattern (noteText note)))
                     reminderPatterns).
Proof.
  unfold pushNote. generalize reminderPatterns as ps. intros ps.
  revert rs. induction ps as [|p ps IH]; intros rs; simpl; [lia|].
  specialize (IH (fold_left (pushMatch env note (noteText note))
                    (execAll p (noteText note)) rs)).
  assert (H := pushMatches_length env note (noteText note)
                 (execAll p (noteText note)) rs).
  lia.
Qed.

Lemma collectReminders_length (env : Env) (notes : list Note.t) :
  length (collectReminders env notes) <= matchCount notes.
Proof.
  unfold collectReminders, matchCount.
  set (perNote := fun note =>
         list_sum (map (fun pattern => length (execAll pattern (noteText note)))
                       reminderPatterns)).
  assert (G : forall rs,
             length (fold_left (pushNote env) notes rs)
             <= length rs + list_sum (map perNote notes)).
  { induction notes as [|n ns IH]; intros rs.
    - simpl. lia.
    - change (fold_left (pushNote env) (n :: ns) rs)
        with (fold_left (pushNote env) ns (pushNote env rs n)).
      change (list_sum (map perNote (n :: ns)))
        with (perNote n + list_sum (map perNote ns)).
      specialize (IH (pushNote env rs n)).
      assert (H := pushNote_length env n rs). fold (perNote n) in H. lia. }
  apply (G []).
Qed.

(** X11: the extraction returns at most as many reminders as the seven
    patterns have matches in the texts of the notes, and among them only
    candidates that were pushed. *)
Theorem extractRemindersFromNotes_bounded (env : Env) (notes : list Note.t) :
  length (extractRemindersFromNotes env notes) <= matchCount notes /\
  length (extractRemindersFromNotes env notes)
  <= length (collectReminders env notes) /\
  (forall r, In r (extractRemindersFromNotes env notes) ->
             In r (collectReminders env notes)).
Proof.
  assert (L : length (extractRemindersFromNotes env notes)
              <= length (collectReminders env notes)).
  { unfold extractRemindersFromNotes. rewrite byPriority_weight.
    rewrite (Permutation_length (sort_perm _ _)).
    apply subseq_length, uniqueReminders_subseq. }
  split; [|split; [exact L|]].
  - assert (C := collectReminders_length env notes). lia.
  - intros r. apply extract_In_collect.
Qed.

(** ** The matches of a pattern *)

Lemma repeat_class_consumes (ic : bool) (a : charclass) (greedy : bool)
  (k : cont) (z : result) (rest : jsstring) :
  forall min pos cap,
    repeat_class ic a min greedy k rest pos cap = Some z ->
    exists rest' pos',
      k rest' pos' cap = Some z /\
      pos' + length rest' = pos + length rest.
Proof.
  induction rest as [|c rest IH]; intros min pos cap H.
  - simpl in H. destruct (min =? 0); simpl in H; [|discriminate].
    assert (K : k [] pos cap = Some z).
    { destruct greedy; [exact H|].
      destruct (k [] pos cap); [exact H|discriminate]. }
    exists [], pos. split; [exact K|reflexivity].
  - simpl in H.
    assert (Again :
              (if class_match ic a c
               then repeat_class ic a (Nat.pred min) greedy k rest (S pos) cap
               else None) = Some z ->
              exists rest' pos',
                k rest' pos' cap = Some z /\
                pos' + length rest' = pos + length (c :: rest)).
    { destruct (class_match ic a c); [|discriminate].
      intros G. destruct (IH _ _ _ G) as (rest' & pos' & K & L).
      exists rest', pos'. split; [exact K|simpl; lia]. }
    destruct (min =? 0); simpl in H; [|apply Again, H].
    destruct greedy.
    + destruct (if class_match ic a c
                then repeat_class ic a (Nat.pred min) true k rest (S pos) cap
                else None) as [z'|] eqn:G.
      * injection H as ->. apply Again. reflexivity.
      * exists (c :: rest), pos. split; [exact H|reflexivity].
    + destruct (k (c :: rest) pos cap) as [z'|] eqn:G.
      * injection H as ->. exists (c :: rest), pos. split; [exact G|reflexivity].
      * apply Again, H.
Qed.

(** The continuation is entered at a position that has moved by as much as
    the input has shrunk. *)
Lemma rmatch_consumes (ic : bool) (r : regex) :
  forall k rest pos cap z,
    rmatch ic r k rest pos cap = Some z ->
    exists rest' pos' cap',
      k rest' pos' cap' = Some z /\
      pos' + length rest' = pos + length rest.
Proof.
  induction r as [|a| |r1 IH1 r2 IH2|r1 IH1 r2 IH2|r1 IH1|a min greedy|r1 IH1];
    intros k rest pos cap z H; simpl in H.
  - exists rest, pos, cap. split; [exact H|reflexivity].
  - destruct rest as [|c rest]; [discriminate|].
    destruct (class_match ic a c); [|discriminate].
    exists rest, (S pos), cap. split; [exact H|simpl; lia].
  - destruct rest as [|c rest]; [|discriminate].
    exists [], pos, cap. split; [exact H|reflexivity].
  - destruct (IH1 _ _ _ _ _ H) as (rest1 & pos1 & cap1 & H1 & L1).
    destruct (IH2 _ _ _ _ _ H1) as (rest2 & pos2 & cap2 & H2 & L2).
    exists rest2, pos2, cap2. split; [exact H2|lia].
  - destruct (rmatch ic r1 k rest pos cap) as [z'|] eqn:E.
    + injection H as ->. apply (IH1 _ _ _ _ _ E).
    + apply (IH2 _ _ _ _ _ H).
  - destruct (IH1 _ _ _ _ _ H) as (rest1 & pos1 & cap1 & H1 & L1).
    exists rest1, pos1, (Some (pos, pos1)). split; [exact H1|exact L1].
  - destruct (repeat_class_consumes _ _ _ _ _ _ _ _ H)
      as (rest' & pos' & K & L).
    exists rest', pos', cap. split; [exact K|exact L].
  - destruct (rmatch ic r1 _ rest pos cap) as [z'|] eqn:E.
    + injection H as ->.
      destruct (IH1 _ _ _ _ _ E) as (rest1 & pos1 & cap1 & H1 & L1).
      destruct (pos1 =? pos); [discriminate|].
      exists rest1, pos1, cap1. split; [exact H1|exact L1].
    + exists rest, pos, cap. split; [exact H|reflexivity].
Qed.

Lemma search_bounds (ic : bool) (r : regex) (text : jsstring) (m : MatchResult) :
  nullable r = false ->
  forall rest pos,
    search ic r text rest pos = Some m ->
    pos <= index m /\ index m < endIndex m /\
    endIndex m <= pos + length rest.
Proof.
  intros N rest.
  assert (Here : forall rest pos e cap,
             rmatch ic r (fun _ e cap => Some (e, cap)) rest pos None
             = Some (e, cap) ->
             pos < e /\ e <= pos + length rest).
  { intros rest0 pos e cap E. split.
    - destruct (rmatch_progress _ _ _ _ _ _ E) as (? & pos' & cap' & K & _ & P).
      injection K as <- _. apply P, N.
    - destruct (rmatch_consumes _ _ _ _ _ _ E) as (rest' & pos' & cap' & K & L).
      injection K as <- _. lia. }
  induction rest as [|c rest IH]; intros pos H; simpl in H.
  - destruct (rmatch ic r _ [] pos None) as [[e cap]|] eqn:E; [|discriminate].
    injection H as <-. simpl. destruct (Here _ _ _ _ E). simpl in *. lia.
  - destruct (rmatch ic r _ (c :: rest) pos None) as [[e cap]|] eqn:E.
    + injection H as <-. destruct (Here _ _ _ _ E). simpl in *. lia.
    + destruct (IH _ H) as (A & B & C). simpl. lia.
Qed.

Lemma exec_bounds (re : RegExp.t) (text : jsstring) (lastIndex : nat)
  (m : MatchResult) :
  nullable (pattern re) = false ->
  exec re text lastIndex = Some m ->
  lastIndex <= index m /\ index m < endIndex m /\ endIndex m <= length text.
Proof.
  intros N H. unfold exec in H.
  destruct (length text <? lastIndex) eqn:L; [discriminate|].
  apply Nat.ltb_ge in L.
  destruct (search_bounds _ _ _ N _ _ H) as (A & B & C).
  rewrite length_skipn in C. lia.
Qed.

Lemma execLoop_inOrder (re : RegExp.t) (text : jsstring) :
  nullable (pattern re) = false ->
  forall fuel lastIndex,
    matchesInOrder (length text) lastIndex (execLoop fuel re text lastIndex).
Proof.
  intros N. induction fuel as [|fuel IH]; intros lastIndex; simpl; [exact I|].
  destruct (exec re text lastIndex) as [m|] eqn:E; [|exact I].
  destruct (exec_bounds _ _ _ N E) as (A & B & C).
  simpl. repeat split; try assumption. apply IH.
Qed.

Lemma matchesInOrder_length (len : nat) (ms : list MatchResult) :
  forall from, matchesInOrder len from ms -> ms = [] \/ from + length ms <= len.
Proof.
  induction ms as [|m ms IH]; intros from H; [left; reflexivity|].
  right. destruct H as (A & B & C & D). simpl.
  destruct (IH _ D) as [->|L]; simpl; lia.
Qed.

(** X12: for each of the seven patterns and every text, the matches that
    the [while] loop goes through are not empty, lie inside the text and
    follow one another without overlap; so there are at most as many as
    the text has characters, and the loop ends: allowing it more rounds
    gives the same matches. *)
Theorem reminderPatterns_matches (re : RegExp.t) (text : jsstring) :
  In re reminderPatterns ->
  matchesInOrder (length text) 0 (execAll re text) /\
  length (execAll re text) <= length text /\
  (forall n, execLoop (S (length text) + n) re text 0 = execAll re text).
Proof.
  intros H. assert (N := reminderPatterns_not_nullable H).
  assert (O := execLoop_inOrder re text N (S (length text)) 0).
  split; [exact O|]. split.
  - destruct (@matchesInOrder_length _ _ 0 O) as [E|L];
      unfold execAll; [rewrite E; simpl; lia|lia].
  - intros n. unfold execAll. apply execLoop_fuel; [exact N|lia|lia].
Qed.

Lemma reminderPatterns_matches_witness :
  In (nth 2 reminderPatterns (RegExp.mk [] false false Empty))
     reminderPatterns /\
  length (execAll (nth 2 reminderPatterns (RegExp.mk [] false false Empty))
            (str "run, walk, jog"))
  <= length (str "run, walk, jog").
Proof.
  assert (H : In (nth 2 reminderPatterns (RegExp.mk [] false false Empty))
                 reminderPatterns)
    by (apply nth_In; vm_compute; repeat constructor).
  split; [exact H|].
  apply (@reminderPatterns_matches _ (str "run, walk, jog") H).
Defined.

(** ** [trim] *)

Lemma trimStart_head (s t : jsstring) (c : ascii) :
  trimStart s = c :: t -> isWhiteSpace c = false.
Proof.
  induction s as [|x s IH]; simpl; [discriminate|].
  destruct (isWhiteSpace x) eqn:E; [exact IH|].
  intros H. injection H as <- _. exact E.
Qed.

Lemma trimStart_snoc (u : jsstring) (c : ascii) :
  isWhiteSpace c = false -> trimStart (u ++ [c]) = trimStart u ++ [c].
Proof.
  intros H. induction u as [|x u IH]; simpl.
  - rewrite H. reflexivity.
  - destruct (isWhiteSpace x); [exact IH|reflexivity].
Qed.

Lemma trimStart_nil (s : jsstring) :
  trimStart s = [] <-> forallb isWhiteSpace s = true.
Proof.
  induction s as [|x s IH]; simpl; [split; reflexivity|].
  destruct (isWhiteSpace x); simpl; [exact IH|].
  split; discriminate.
Qed.

Lemma trimStart_fixed (s : jsstring) :
  (forall c t, s = c :: t -> isWhiteSpace c = false) -> trimStart s = s.
Proof.
  destruct s as [|c t]; [reflexivity|].
  intros H. simpl. rewrite (H c t eq_refl). reflexivity.
Qed.

Lemma trim_shape (s : jsstring) :
  (trimStart s = [] /\ trim s = []) \/
  (exists c a, trimStart s = c :: a /\ isWhiteSpace c = false /\
               trim s = c :: rev (trimStart (rev a))).
Proof.
  unfold trim. destruct (trimStart s) as [|c a] eqn:E.
  - left. split; reflexivity.
  - right. exists c, a. assert (W := trimStart_head _ E).
    repeat split; [exact W|].
    simpl rev. rewrite trimStart_snoc by exact W.
    rewrite rev_app_distr. reflexivity.
Qed.

Lemma trim_first (s t : jsstring) (c : ascii) :
  trim s = c :: t -> isWhiteSpace c = false.
Proof.
  destruct (trim_shape s) as [[_ E]|(d & a & _ & W & E)]; rewrite E.
  - discriminate.
  - intros H. injection H as <- _. exact W.
Qed.

Lemma trim_last (s t : jsstring) (c : ascii) :
  trim s = t ++ [c] -> isWhiteSpace c = false.
Proof.
  unfold trim. intros H.
  apply (f_equal (@rev ascii)) in H.
  rewrite rev_involutive, rev_app_distr in H. simpl in H.
  apply (trimStart_head _ H).
Qed.

Lemma trim_nil (s : jsstring) :
  trim s = [] <-> forallb isWhiteSpace s = true.
Proof.
  rewrite <- trimStart_nil.
  destruct (trim_shape s) as [[E T]|(d & a & E & W & T)]; rewrite E, T;
    split; try reflexivity; discriminate.
Qed.

Lemma trim_idempotent (s : jsstring) : trim (trim s) = trim s.
Proof.
  unfold trim at 1.
  rewrite (trimStart_fixed (s := trim s)) by (intros c t; apply trim_first).
  rewrite trimStart_fixed; [apply rev_involutive|].
  intros c t H. apply (f_equal (@rev ascii)) in H.
  rewrite rev_involutive in H. simpl in H.
  eapply trim_last. exact H.
Qed.

(** ** The fields of a reminder and its text *)

Lemma pushMatch_Forall_raw (P : Reminder.t -> Prop) (env : Env) (note : Note.t)
  (text : jsstring) (m : MatchResult) (rs : list Reminder.t) :
  (forall k raw from,
     3 < length raw ->
     P (Reminder.mk (reminderId env note k) (Note.id note) (trim raw) from
          (determinePriority raw) (categorizeReminder raw)
          (extractTimeHint text) false false (Note.timestamp note))) ->
  Forall P rs -> Forall P (pushMatch env note text rs m).
Proof.
  intros New H. unfold pushMatch.
  destruct (negb _ && (3 <? _)) eqn:E; [|exact H].
  apply andb_prop in E. destruct E as [_ E]. apply Nat.ltb_lt in E.
  apply Forall_app. split; [exact H|].
  constructor; [apply New; exact E|constructor].
Qed.

Lemma collectReminders_Forall_raw (P : Reminder.t -> Prop) (env : Env)
  (notes : list Note.t) :
  (forall note k raw from,
     In note notes -> 3 < length raw ->
     P (Reminder.mk (reminderId env note k) (Note.id note) (trim raw) from
          (determinePriority raw) (categorizeReminder raw)
          (extractTimeHint (noteText note)) false false
          (Note.timestamp note))) ->
  Forall P (collectReminders env notes).
Proof.
  intros New. unfold collectReminders.
  assert (G : forall ns rs,
             (forall n, In n ns -> In n notes) ->
             Forall P rs -> Forall P (fold_left (pushNote env) ns rs)).
  { induction ns as [|n ns IH]; intros rs Hin H; simpl; [exact H|].
    apply IH; [intros x Hx; apply Hin; right; exact Hx|].
    unfold pushNote. generalize reminderPatterns as ps. intros ps.
    revert rs H. induction ps as [|p ps IHp]; intros rs H; simpl; [exact H|].
    apply IHp. generalize (execAll p (noteText n)) as ms. intros ms.
    revert rs H. induction ms as [|m ms IHm]; intros rs H; simpl; [exact H|].
    apply IHm. apply pushMatch_Forall_raw; [|exact H].
    intros k raw from L. apply New; [apply Hin; left; reflexivity|exact L]. }
  apply G; [intros n H; exact H|constructor].
Qed.

Lemma extract_Forall_raw (P : Reminder.t -> Prop) (env : Env)
  (notes : list Note.t) :
  (forall note k raw from,
     In note notes -> 3 < length raw ->
     P (Reminder.mk (reminderId env note k) (Note.id note) (trim raw) from
          (determinePriority raw) (categorizeReminder raw)
          (extractTimeHint (noteText note)) false false
          (Note.timestamp note))) ->
  forall r, In r (extractRemindersFromNotes env notes) -> P r.
Proof.
  intros New r H. apply extract_In_collect in H.
  assert (F := collectReminders_Forall_raw P env notes New).
  rewrite Forall_forall in F. apply F, H.
Qed.

(** X13: the text of every reminder is trimmed: trimming it again changes
    nothing, so it neither begins nor ends with white space. *)
Theorem reminder_text_trimmed (env : Env) (notes : list Note.t)
  (r : Reminder.t) :
  In r (extractRemindersFromNotes env notes) ->
  trim (Reminder.text r) = Reminder.text r /\
  (forall c t, Reminder.text r = c :: t -> isWhiteSpace c = false) /\
  (forall t c, Reminder.text r = t ++ [c] -> isWhiteSpace c = false).
Proof.
  revert r. apply extract_Forall_raw.
  intros note k raw from _ _. cbn [Reminder.text].
  split; [apply trim_idempotent|].
  split; intros; [eapply trim_first|eapply trim_last]; eassumption.
Qed.

Lemma reminder_text_trimmed_witness :
  let out := extractRemindersFromNotes sampleEnv
               [textNote "1" "Remember to   call mom   "] in
  let r := nth 0 out (Reminder.mk [] [] [] [] low [] None true true []) in
  In r out /\ trim (Reminder.text r) = Reminder.text r.
Proof.
  cbv zeta.
  assert (H : In (nth 0 (extractRemindersFromNotes sampleEnv
                           [textNote "1" "Remember to   call mom   "])
                        (Reminder.mk [] [] [] [] low [] None true true []))
                 (extractRemindersFromNotes sampleEnv
                    [textNote "1" "Remember to   call mom   "])).
  { apply nth_In. vm_compute. repeat constructor. }
  split; [exact H|].
  apply (@reminder_text_trimmed sampleEnv _ _ H).
Defined.

(** ** Substrings *)

Lemma startsWith_app (w s : jsstring) : startsWith w (w ++ s) = true.
Proof.
  induction w as [|c w IH]; simpl; [reflexivity|].
  rewrite Ascii.eqb_refl. exact IH.
Qed.

Lemma startsWith_prefix (w s : jsstring) :
  startsWith w s = true <-> exists post, s = w ++ post.
Proof.
  revert s. induction w as [|c w IH]; intros s; simpl.
  - split; [intros _; exists s; reflexivity|reflexivity].
  - destruct s as [|d s]; [split; [discriminate|intros [p H]; discriminate]|].
    rewrite andb_true_iff, Ascii.eqb_eq, IH. split.
    + intros [-> [p ->]]. exists p. reflexivity.
    + intros [p H]. injection H as -> ->. split; [reflexivity|].
      exists p. reflexivity.
Qed.

Lemma includes_cons (x : ascii) (s w : jsstring) :
  includes (x :: s) w = startsWith w (x :: s) || includes s w.
Proof. reflexivity. Qed.

Lemma includes_occurs (s w : jsstring) :
  includes s w = true <-> exists pre post, s = pre ++ w ++ post.
Proof.
  induction s as [|x s IH].
  - simpl. rewrite orb_false_r, startsWith_prefix. split.
    + intros [p H]. exists [], p. exact H.
    + intros (pre & post & H). destruct pre; [exists post; exact H|].
      discriminate.
  - rewrite includes_cons, orb_true_iff, startsWith_prefix, IH. split.
    + intros [[p H]|(pre & post & H)].
      * exists [], p. exact H.
      * exists (x :: pre), post. rewrite H. reflexivity.
    + intros (pre & post & H). destruct pre as [|y pre].
      * left. exists post. exact H.
      * right. injection H as -> ->. exists pre, post. reflexivity.
Qed.

Lemma includes_middle (pre w post : jsstring) :
  includes (pre ++ w ++ post) w = true.
Proof. apply includes_occurs. exists pre, post. reflexivity. Qed.

Lemma bool_eq_iff (a b : bool) : (a = true <-> b = true) -> a = b.
Proof. destruct a, b; intros [H1 H2]; auto. symmetry. auto. Qed.

Lemma includes_rev (s w : jsstring) : includes (rev s) (rev w) = includes s w.
Proof.
  apply bool_eq_iff. rewrite !includes_occurs. split.
  - intros (pre & post & H). exists (rev post), (rev pre).
    apply (f_equal (@rev ascii)) in H.
    rewrite rev_involutive, !rev_app_distr, rev_involutive in H.
    rewrite H, app_assoc. reflexivity.
  - intros (pre & post & ->). exists (rev post), (rev pre).
    rewrite !rev_app_distr, app_assoc. reflexivity.
Qed.

(** ** [determinePriority] *)

Lemma toLowerCase_app (a b : jsstring) :
  toLowerCase (a ++ b) = toLowerCase a ++ toLowerCase b.
Proof. apply map_app. Qed.

Lemma determinePriority_high_word (text w : jsstring) :
  In w highPriorityWords -> includes (toLowerCase text) w = true ->
  determinePriority text = high.
Proof.
  intros Hw Hi. unfold determinePriority, some.
  assert (E : existsb (fun word => includes (toLowerCase text) word)
                highPriorityWords = true)
    by (apply existsb_exists; exists w; split; assumption).
  rewrite E. reflexivity.
Qed.

(** X14: a text in which one of the six urgent words occurs, in any
    letter case and anywhere, has priority high, whatever else it says:
    the tentative words do not count then. *)
Theorem determinePriority_urgent_wins (pre w post : jsstring) :
  In (toLowerCase w) highPriorityWords ->
  determinePriority (pre ++ w ++ post) = high.
Proof.
  intros H. apply determinePriority_high_word with (toLowerCase w); [exact H|].
  rewrite !toLowerCase_app. apply includes_middle.
Qed.

Lemma determinePriority_urgent_wins_witness :
  In (toLowerCase (str "ASAP")) highPriorityWords /\
  determinePriority (str "maybe call her " ++ str "ASAP" ++ str ", if possible")
  = high.
Proof.
  assert (H : In (toLowerCase (str "ASAP")) highPriorityWords)
    by (vm_compute; tauto).
  split; [exact H|].
  apply (@determinePriority_urgent_wins (str "maybe call her ") (str "ASAP")
           (str ", if possible") H).
Defined.

(** ** Patterns of words and substrings *)

Lemma folded_cons (ic : bool) (c : ascii) (s : jsstring) :
  folded ic (c :: s) = (if ic then canonicalize c else c) :: folded ic s.
Proof. destruct ic; reflexivity. Qed.

Lemma class_match_Lit (ic : bool) (p c : ascii) :
  class_match ic (Lit p) c
  = Ascii.eqb (if ic then canonicalize p else p)
              (if ic then canonicalize c else c).
Proof. destruct ic; reflexivity. Qed.

(** A word matches where the input starts with it. *)
Lemma rmatch_word (ic : bool) (w : jsstring) :
  forall (k : cont) rest pos cap,
    rmatch ic (word w) k rest pos cap
    = if startsWith (folded ic w) (folded ic rest)
      then k (skipn (length w) rest) (pos + length w) cap
      else None.
Proof.
  induction w as [|c w IH]; intros k rest pos cap.
  - simpl. destruct ic; simpl; rewrite Nat.add_0_r; reflexivity.
  - destruct w as [|d w].
    + simpl word. cbn [rmatch]. destruct rest as [|x rest].
      * destruct ic; reflexivity.
      * rewrite !folded_cons, class_match_Lit. simpl startsWith.
        replace (folded ic []) with (@nil ascii) by (destruct ic; reflexivity).
        simpl. rewrite andb_true_r, Nat.add_1_r. reflexivity.
    + change (word (c :: d :: w)) with (Seq (Atom (Lit c)) (word (d :: w))).
      cbn [rmatch]. destruct rest as [|x rest].
      * destruct ic; reflexivity.
      * rewrite IH, (folded_cons ic c), (folded_cons ic x), class_match_Lit.
        change (skipn (length (c :: d :: w)) (x :: rest))
          with (skipn (length (d :: w)) rest).
        replace (pos + length (c :: d :: w)) with (S pos + length (d :: w))
          by (cbn [length]; lia).
        cbn [startsWith].
        destruct (Ascii.eqb _ _); reflexivity.
Qed.

Lemma isSome_alts (ic : bool) (k : cont) (rest : jsstring) (pos : nat)
  (cap : captures) (r : regex) (rs : list regex) :
  isSome (rmatch ic (alts (r :: rs)) k rest pos cap)
  = existsb (fun r => isSome (rmatch ic r k rest pos cap)) (r :: rs).
Proof.
  revert r. induction rs as [|r' rs IH]; intros r.
  - simpl. rewrite orb_false_r. reflexivity.
  - change (alts (r :: r' :: rs)) with (Alt r (alts (r' :: rs))).
    cbn [rmatch]. simpl existsb.
    destruct (rmatch ic r k rest pos cap); [reflexivity|].
    simpl. apply IH.
Qed.

Lemma existsb_same {A : Type} (f g : A -> bool) (l : list A) :
  (forall x, f x = g x) -> existsb f l = existsb g l.
Proof.
  intros H. induction l as [|x l IH]; simpl; [reflexivity|].
  rewrite H, IH. reflexivity.
Qed.

Lemma existsb_mapped {A B : Type} (f : A -> B) (p : B -> bool) (l : list A) :
  existsb p (map f l) = existsb (fun x => p (f x)) l.
Proof.
  induction l as [|x l IH]; simpl; [reflexivity|].
  rewrite IH. reflexivity.
Qed.

Lemma existsb_orb {A : Type} (f g : A -> bool) (l : list A) :
  existsb (fun x => f x || g x) l = existsb f l || existsb g l.
Proof.
  induction l as [|x l IH]; simpl; [reflexivity|].
  rewrite IH. destruct (f x), (g x), (existsb f l); reflexivity.
Qed.

Lemma isSome_search (ic : bool) (r : regex) (text : jsstring)
  (ws : list jsstring) :
  (forall rest pos,
     isSome (rmatch ic r (fun _ e cap => Some (e, cap)) rest pos None)
     = existsb (fun w => startsWith (folded ic w) (folded ic rest)) ws) ->
  forall rest pos,
    isSome (search ic r text rest pos)
    = existsb (fun w => includes (folded ic rest) (folded ic w)) ws.
Proof.
  intros H rest. induction rest as [|x rest IH]; intros pos.
  - simpl search. specialize (H [] pos).
    destruct (rmatch ic r _ [] pos None) as [[e cap]|]; simpl in H |- *;
      rewrite H; apply existsb_same; intros w;
      replace (folded ic []) with (@nil ascii) by (destruct ic; reflexivity);
      simpl; rewrite orb_false_r; reflexivity.
  - simpl search. specialize (H (x :: rest) pos).
    assert (E : existsb (fun w => includes (folded ic (x :: rest)) (folded ic w)) ws
                = existsb (fun w => startsWith (folded ic w)
                                      (folded ic (x :: rest))) ws
                  || existsb (fun w => includes (folded ic rest) (folded ic w)) ws).
    { rewrite <- existsb_orb. apply existsb_same. intros w.
      rewrite folded_cons. reflexivity. }
    rewrite E, <- H, <- (IH (S pos)).
    destruct (rmatch ic r _ (x :: rest) pos None) as [[e cap]|]; reflexivity.
Qed.

Lemma test_search (re : RegExp.t) (text : jsstring) :
  test re text = isSome (search (ignoreCase re) (pattern re) text text 0).
Proof. reflexivity. Qed.

Lemma isSome_words (ic : bool) (k : cont) (ws : list jsstring)
  (rest : jsstring) (pos : nat) (cap : captures) :
  ws <> [] ->
  (forall rest' pos' cap', isSome (k rest' pos' cap') = true) ->
  isSome (rmatch ic (alts (map word ws)) k rest pos cap)
  = existsb (fun w => startsWith (folded ic w) (folded ic rest)) ws.
Proof.
  intros N K. destruct ws as [|w ws]; [congruence|].
  change (map word (w :: ws)) with (word w :: map word ws).
  rewrite isSome_alts.
  change (word w :: map word ws) with (map word (w :: ws)).
  generalize (w :: ws) as l. intros l.
  induction l as [|v l IH]; simpl; [reflexivity|].
  rewrite IH, rmatch_word.
  destruct (startsWith (folded ic v) (folded ic rest)); [|reflexivity].
  rewrite K. reflexivity.
Qed.

(** The pattern [/(w1|...|wn)/] matches a text exactly when one of the
    words occurs in it. *)
Lemma test_keywordPattern (src : string) (ws : list string) (text : jsstring) :
  ws <> [] ->
  test (keywordPattern src ws) text
  = existsb (fun w => includes text (str w)) ws.
Proof.
  intros N. rewrite test_search. simpl ignoreCase. simpl pattern.
  rewrite (isSome_search false (Capture (words ws)) text (map str ws)).
  - unfold folded. rewrite existsb_mapped. reflexivity.
  - intros rest pos. cbn [rmatch]. unfold words.
    rewrite <- (map_map str word).
    apply isSome_words; [|reflexivity].
    destruct ws; [congruence|discriminate].
Qed.

(** The pattern [/w/i] matches a text exactly when [w] occurs in it in
    some letter case. *)
Lemma test_timePattern (w : string) (text : jsstring) :
  test (timePattern w) text
  = includes (map canonicalize text) (map canonicalize (str w)).
Proof.
  rewrite test_search. simpl ignoreCase. simpl pattern.
  rewrite (isSome_search true (word (str w)) text [str w]).
  - simpl. rewrite orb_false_r. reflexivity.
  - intros rest pos. rewrite rmatch_word. simpl existsb.
    rewrite orb_false_r.
    destruct (startsWith _ _); reflexivity.
Qed.

(** ** [categorizeReminder] *)

Lemma categorizeReminder_firstCategory (text : jsstring) :
  categorizeReminder text = firstCategory categoryKeywords (toLowerCase text).
Proof.
  unfold categorizeReminder.
  rewrite !test_keywordPattern by discriminate. reflexivity.
Qed.

Lemma firstCategory_range (groups : list (list string * string)) (s : jsstring) :
  In (firstCategory groups s)
     (map (fun g => str (snd g)) groups ++ [str "general"]).
Proof.
  induction groups as [|[ws name] groups IH]; simpl.
  - left. reflexivity.
  - destruct (existsb _ ws); [left; reflexivity|right; exact IH].
Qed.

(** X15: [categorizeReminder] looks for substrings: the category of a
    text is the first of the seven groups, in the order fitness,
    hydration, sleep, mindfulness, learning, work, nutrition, one of whose
    keywords occurs somewhere in the lower-cased text, and [general] when
    none does. *)
Theorem categorizeReminder_by_substring (text : jsstring) :
  categorizeReminder text = firstCategory categoryKeywords (toLowerCase text) /\
  In (categorizeReminder text) categoryNames.
Proof.
  split; [apply categorizeReminder_firstCategory|].
  rewrite categorizeReminder_firstCategory.
  apply (firstCategory_range categoryKeywords).
Qed.

(** ** [extractTimeHint] *)

Lemma firstTimeHint_none (ps : list string) (text : jsstring) :
  firstTimeHint (map timePattern ps) text = None <->
  (forall p, In p ps ->
     includes (map canonicalize text) (map canonicalize (str p)) = false).
Proof.
  induction ps as [|p ps IH]; simpl.
  - split; [intros _ p []|reflexivity].
  - rewrite test_timePattern.
    destruct (includes _ (map canonicalize (str p))) eqn:E.
    + split; [discriminate|]. intros H.
      rewrite (H p (or_introl eq_refl)) in E. discriminate.
    + rewrite IH. split.
      * intros H q [<-|Hq]; [exact E|apply H, Hq].
      * intros H q Hq. apply H. right. exact Hq.
Qed.

Lemma extractTimeHint_in_timeHints (text h : jsstring) :
  extractTimeHint text = Some h -> In h timeHints.
Proof.
  unfold extractTimeHint. rewrite firstTimeHint_find.
  destruct (find _ timePatterns) as [p|] eqn:F; [|discriminate].
  apply find_some in F. destruct F as [F _].
  simpl option_map. intros H. injection H as <-.
  apply (in_map hintOf) in F. exact F.
Qed.

(** X16: the time hint of a text is one of nine fixed strings, of which
    six have lost their first [i]; there is none exactly when none of the
    nine phrases occurs in the text in any letter case; and a text in
    which [tomorrow] occurs has the hint [tomorrow], wherever other
    phrases stand in it. *)
Theorem extractTimeHint_cases :
  (forall text h, extractTimeHint text = Some h -> In h timeHints) /\
  (forall text,
     extractTimeHint text = None <->
     (forall p, In p timePhrases ->
        includes (map canonicalize text) (map canonicalize (str p)) = false)) /\
  (forall pre w post,
     sameLetters w (str "tomorrow") ->
     extractTimeHint (pre ++ w ++ post) = Some (str "tomorrow")).
Proof.
  split; [apply extractTimeHint_in_timeHints|]. split.
  - intros text. apply (firstTimeHint_none timePhrases).
  - intros pre w post S. unfold extractTimeHint, timePatterns.
    cbn [map firstTimeHint]. rewrite test_timePattern.
    rewrite !map_app. unfold sameLetters in S. rewrite S.
    rewrite includes_middle. reflexivity.
Qed.

(** ** Priority and category of a trimmed text *)

Lemma isWhiteSpace_lowerChar (c : ascii) :
  isWhiteSpace (lowerChar c) = isWhiteSpace c.
Proof.
  destruct c as [b0 b1 b2 b3 b4 b5 b6 b7].
  destruct b0, b1, b2, b3, b4, b5, b6, b7; reflexivity.
Qed.

Lemma toLowerCase_trimStart (s : jsstring) :
  toLowerCase (trimStart s) = trimStart (toLowerCase s).
Proof.
  induction s as [|x s IH]; [reflexivity|].
  simpl. rewrite isWhiteSpace_lowerChar.
  destruct (isWhiteSpace x); [exact IH|reflexivity].
Qed.

Lemma toLowerCase_trim (s : jsstring) :
  toLowerCase (trim s) = trim (toLowerCase s).
Proof.
  unfold trim, toLowerCase. rewrite map_rev.
  fold (toLowerCase (trimStart (rev (trimStart s)))).
  rewrite toLowerCase_trimStart. unfold toLowerCase at 1. rewrite map_rev.
  fold (toLowerCase (trimStart s)). rewrite toLowerCase_trimStart.
  reflexivity.
Qed.

Lemma includes_trimStart (s w : jsstring) (c : ascii) :
  isWhiteSpace c = false ->
  includes (trimStart s) (c :: w) = includes s (c :: w).
Proof.
  intros H. induction s as [|x s IH]; [reflexivity|].
  cbn [trimStart]. destruct (isWhiteSpace x) eqn:E; [|reflexivity].
  rewrite IH, (includes_cons x s). cbn [startsWith].
  assert (N : Ascii.eqb c x = false).
  { apply not_true_is_false. intros Q. apply Ascii.eqb_eq in Q.
    subst x. congruence. }
  rewrite N. reflexivity.
Qed.

Lemma solid_ends (w : jsstring) :
  solid w = true ->
  (exists c t, w = c :: t /\ isWhiteSpace c = false) /\
  (exists d t, rev w = d :: t /\ isWhiteSpace d = false).
Proof.
  unfold solid. destruct w as [|c t]; [discriminate|].
  destruct (rev (c :: t)) as [|d u]; [discriminate|].
  intros H. apply andb_prop in H. destruct H as [H1 H2].
  apply negb_true_iff in H1, H2. split.
  - exists c, t. split; [reflexivity|exact H1].
  - exists d, u. split; [reflexivity|exact H2].
Qed.

Lemma includes_trim (s w : jsstring) :
  solid w = true -> includes (trim s) w = includes s w.
Proof.
  intros S. destruct (solid_ends _ S) as [(c & t & -> & Hc) (d & u & Er & Hd)].
  unfold trim.
  rewrite <- (rev_involutive (c :: t)) at 1.
  rewrite includes_rev, Er. rewrite includes_trimStart by exact Hd.
  rewrite <- Er, includes_rev.
  apply includes_trimStart, Hc.
Qed.

Lemma existsb_same_in {A : Type} (f g : A -> bool) (l : list A) :
  (forall x, In x l -> f x = g x) -> existsb f l = existsb g l.
Proof.
  intros H. induction l as [|x l IH]; simpl; [reflexivity|].
  rewrite (H x (or_introl eq_refl)), IH; [reflexivity|].
  intros y Hy. apply H. right. exact Hy.
Qed.

Lemma includes_words_trim (ws : list jsstring) (s : jsstring) :
  forallb solid ws = true ->
  existsb (fun w => includes (trim s) w) ws
  = existsb (fun w => includes s w) ws.
Proof.
  intros H. apply existsb_same_in. intros w Hw.
  apply includes_trim. rewrite forallb_forall in H. apply H, Hw.
Qed.

Lemma determinePriority_trim (raw : jsstring) :
  determinePriority (trim raw) = determinePriority raw.
Proof.
  unfold determinePriority, some. rewrite toLowerCase_trim.
  rewrite !includes_words_trim by reflexivity. reflexivity.
Qed.

Lemma firstCategory_trim (groups : list (list string * string)) (s : jsstring) :
  forallb (fun g => forallb (fun w => solid (str w)) (fst g)) groups = true ->
  firstCategory groups (trim s) = firstCategory groups s.
Proof.
  induction groups as [|[ws name] groups IH]; simpl; [reflexivity|].
  intros H. apply andb_prop in H. destruct H as [H1 H2].
  rewrite (IH H2).
  assert (E : existsb (fun w => includes (trim s) (str w)) ws
              = existsb (fun w => includes s (str w)) ws).
  { apply existsb_same_in. intros w Hw. apply includes_trim.
    rewrite forallb_forall in H1. apply H1, Hw. }
  rewrite E. reflexivity.
Qed.

Lemma categorizeReminder_trim (raw : jsstring) :
  categorizeReminder (trim raw) = categorizeReminder raw.
Proof.
  rewrite !categorizeReminder_firstCategory, toLowerCase_trim.
  apply firstCategory_trim. reflexivity.
Qed.

(** X17: priority and category of a reminder are those of its text: the
    code computes both from the match before it is trimmed, and trimming
    changes neither, since no keyword begins or ends with white space. *)
Theorem reminder_priority_category_of_text (env : Env) (notes : list Note.t)
  (r : Reminder.t) :
  In r (extractRemindersFromNotes env notes) ->
  Reminder.priority r = determinePriority (Reminder.text r) /\
  Reminder.category r = categorizeReminder (Reminder.text r).
Proof.
  revert r. apply extract_Forall_raw.
  intros note k raw from _ _.
  cbn [Reminder.priority Reminder.category Reminder.text].
  rewrite determinePriority_trim, categorizeReminder_trim.
  split; reflexivity.
Qed.

Lemma reminder_priority_category_of_text_witness :
  let out := extractRemindersFromNotes sampleEnv
               [textNote "1" "Remember to   call mom asap   "] in
  let r := nth 0 out (Reminder.mk [] [] [] [] low [] None true true []) in
  In r out /\
  Reminder.priority r = determinePriority (Reminder.text r).
Proof.
  cbv zeta.
  assert (H : In (nth 0 (extractRemindersFromNotes sampleEnv
                           [textNote "1" "Remember to   call mom asap   "])
                        (Reminder.mk [] [] [] [] low [] None true true []))
                 (extractRemindersFromNotes sampleEnv
                    [textNote "1" "Remember to   call mom asap   "])).
  { apply nth_In. vm_compute. repeat constructor. }
  split; [exact H|].
  apply (@reminder_priority_category_of_text sampleEnv _ _ H).
Defined.

(** ** What the merge does to a new extraction *)

Lemma Map_get_in {V : Type} (entries : list (jsstring * V)) (k : jsstring)
  (v : V) :
  Map.get (Map.ofEntries entries) k = Some v -> In (k, v) entries.
Proof.
  unfold Map.ofEntries. rewrite Map_get_entries. simpl.
  destruct (find _ (rev entries)) as [[k' v']|] eqn:F; [|discriminate].
  apply find_some in F. destruct F as [Hin Hk]. simpl in Hk.
  apply string_eqb_eq in Hk. subst k'. simpl. intros H. injection H as <-.
  apply in_rev. exact Hin.
Qed.

Lemma merged_element (prev extractedReminders : list Reminder.t)
  (r : Reminder.t) :
  In r (mergeReminders prev extractedReminders) ->
  exists e,
    In e extractedReminders /\
    (r = e \/
     exists p, In p prev /\ mergeKey p = mergeKey e /\
               r = withDismissed (Reminder.isDismissed p)
                     (withCompleted (Reminder.isCompleted p) e)).
Proof.
  unfold mergeReminders. intros H. apply in_map_iff in H.
  destruct H as (e & E & He). exists e. split; [exact He|].
  destruct (Map.get _ _) as [p|] eqn:G; [|left; symmetry; exact E].
  right. apply Map_get_in, in_map_iff in G.
  destruct G as (p' & Ep & Hp). injection Ep as K <-.
  exists p'. split; [exact Hp|]. split; [exact K|]. symmetry. exact E.
Qed.

(** X18: the merge returns the new extraction with some flags replaced:
    as many reminders, in the same order, each with the [id], the note,
    the text and every other field of the new reminder; only
    [isCompleted] and [isDismissed] can differ.  Merging into an empty
    list returns the extraction as it is. *)
Theorem mergeReminders_shape (prev extractedReminders : list Reminder.t) :
  length (mergeReminders prev extractedReminders)
  = length extractedReminders /\
  map exceptFlags (mergeReminders prev extractedReminders)
  = map exceptFlags extractedReminders /\
  mergeReminders [] extractedReminders = extractedReminders.
Proof.
  unfold mergeReminders. split; [apply length_map|]. split.
  - rewrite map_map. apply map_ext. intros e.
    destruct (Map.get _ _); reflexivity.
  - simpl. induction extractedReminders as [|e l IH]; [reflexivity|].
    simpl. rewrite IH. reflexivity.
Qed.

Lemma notesEffect_flag_origin (env : Env) (c : Component) (r : Reminder.t) :
  In r (reminders (notesEffect env c)) ->
  Reminder.isCompleted r = true \/ Reminder.isDismissed r = true ->
  exists p,
    In p (reminders c) /\ mergeKey p = mergeKey r /\
    Reminder.isCompleted p = Reminder.isCompleted r /\
    Reminder.isDismissed p = Reminder.isDismissed r.
Proof.
  simpl. intros H F. apply merged_element in H.
  destruct H as (e & He & [->|(p & Hp & K & ->)]).
  - apply extract_madeFrom in He. destruct He as (C & D & _).
    rewrite C, D in F. destruct F; discriminate.
  - exists p. repeat split; assumption.
Qed.

(** X19: the extraction effect never completes or dismisses a reminder
    by itself: a reminder that is completed or dismissed after the effect
    has both flags from a reminder of the list before, one with the same
    key [noteId + text].  After the first run, on an empty list, no
    reminder is completed or dismissed. *)
Theorem notesEffect_flags_come_from_before (env : Env) (c : Component) :
  (forall r,
     In r (reminders (notesEffect env c)) ->
     Reminder.isCompleted r = true \/ Reminder.isDismissed r = true ->
     exists p,
       In p (reminders c) /\ mergeKey p = mergeKey r /\
       Reminder.isCompleted p = Reminder.isCompleted r /\
       Reminder.isDismissed p = Reminder.isDismissed r) /\
  (reminders c = [] ->
   forall r, In r (reminders (notesEffect env c)) ->
             Reminder.isCompleted r = false /\ Reminder.isDismissed r = false).
Proof.
  split; [intros r; apply notesEffect_flag_origin|].
  intros E r H.
  destruct (Reminder.isCompleted r) eqn:C.
  - destruct (notesEffect_flag_origin env c r H) as (p & Hp & _).
    + left. exact C.
    + rewrite E in Hp. destruct Hp.
  - destruct (Reminder.isDismissed r) eqn:D; [|split; reflexivity].
    destruct (notesEffect_flag_origin env c r H) as (p & Hp & _).
    + right. exact D.
    + rewrite E in Hp. destruct Hp.
Qed.

Lemma notesEffect_noteId (env : Env) (c : Component) (r : Reminder.t) :
  In r (reminders (notesEffect env c)) ->
  exists note, In note (notes c) /\ Reminder.noteId r = Note.id note.
Proof.
  simpl. intros H. apply merged_element in H.
  destruct H as (e & He & R).
  apply extract_madeFrom in He.
  destruct He as (_ & _ & note & Hn & Hid & _).
  exists note. split; [exact Hn|].
  destruct R as [->|(p & _ & _ & ->)]; exact Hid.
Qed.

Lemma deleteNote_ids (noteId : jsstring) (ns : list Note.t) (note : Note.t) :
  In note (NotesManager.deleteNote noteId ns) ->
  In note ns /\ Note.id note <> noteId.
Proof.
  unfold NotesManager.deleteNote. intros H. apply filter_In in H.
  destruct H as [H1 H2]. split; [exact H1|].
  apply negb_true_iff in H2. intros E. apply string_eqb_eq in E. congruence.
Qed.

(** X20: after the extraction effect has run, every reminder belongs to a
    note of the current list; so once a note has been deleted in the notes
    list and the component has been rendered with the notes that are
    left, no reminder of the deleted note remains, completed or not. *)
Theorem reminders_follow_notes (env : Env) (c : Component) :
  (forall r, In r (reminders (notesEffect env c)) ->
     exists note, In note (notes c) /\ Reminder.noteId r = Note.id note) /\
  (forall noteId r,
     In r (reminders
             (receiveNotes env (NotesManager.deleteNote noteId (notes c)) c)) ->
     Reminder.noteId r <> noteId).
Proof.
  split; [intros r; apply notesEffect_noteId|].
  intros noteId r H. unfold receiveNotes in H.
  apply notesEffect_noteId in H. destruct H as (note & Hn & E).
  cbn [notes] in Hn. apply deleteNote_ids in Hn. rewrite E. apply Hn.
Qed.

(** ** The handlers, one after the other *)

Lemma withCompleted_twice (r : Reminder.t) :
  withCompleted (negb (Reminder.isCompleted
                         (withCompleted (negb (Reminder.isCompleted r)) r)))
    (withCompleted (negb (Reminder.isCompleted r)) r) = r.
Proof. destruct r as [? ? ? ? ? ? ? [] ? ?]; reflexivity. Qed.

Lemma completeReminder_twice (reminderId : jsstring) (c : Component) :
  reminders (completeReminder reminderId (completeReminder reminderId c))
  = reminders c.
Proof.
  simpl. rewrite map_map. rewrite <- (map_id (reminders c)) at 2.
  apply map_ext. intros r.
  destruct (string_eqb (Reminder.id r) reminderId) eqn:E.
  - cbn [Reminder.id withCompleted]. rewrite E. apply withCompleted_twice.
  - rewrite E. reflexivity.
Qed.

Lemma dismissReminder_twice (reminderId : jsstring) (c : Component) :
  dismissReminder reminderId (dismissReminder reminderId c)
  = dismissReminder reminderId c.
Proof.
  unfold dismissReminder. simpl. f_equal.
  rewrite map_map. apply map_ext. intros r.
  destruct (string_eqb (Reminder.id r) reminderId) eqn:E.
  - cbn [Reminder.id withDismissed]. rewrite E. reflexivity.
  - rewrite E. reflexivity.
Qed.

Lemma complete_dismiss_commute (id1 id2 : jsstring) (c : Component) :
  completeReminder id1 (dismissReminder id2 c)
  = dismissReminder id2 (completeReminder id1 c).
Proof.
  unfold completeReminder, dismissReminder. simpl. f_equal.
  rewrite !map_map. apply map_ext. intros r.
  destruct (string_eqb (Reminder.id r) id1) eqn:E1,
           (string_eqb (Reminder.id r) id2) eqn:E2;
    cbn [Reminder.id withDismissed withCompleted Reminder.isCompleted
         Reminder.isDismissed];
    rewrite ?E1, ?E2; reflexivity.
Qed.

(** X21: completing a reminder twice gives back the list of reminders as
    it was (the handler toggles); dismissing twice is dismissing once; and
    completing one reminder and dismissing another, or the same, can be
    done in either order. *)
Theorem handlers_compose (id1 id2 : jsstring) (c : Component) :
  reminders (completeReminder id1 (completeReminder id1 c)) = reminders c /\
  dismissReminder id1 (dismissReminder id1 c) = dismissReminder id1 c /\
  completeReminder id1 (dismissReminder id2 c)
  = dismissReminder id2 (completeReminder id1 c).
Proof.
  split; [apply completeReminder_twice|].
  split; [apply dismissReminder_twice|apply complete_dismiss_commute].
Qed.

(** ** What is shown *)

Lemma act_dismissed (c : Component) (a : Action) (i : nat) (r : Reminder.t) :
  nth_error (reminders c) i = Some r -> Reminder.isDismissed r = true ->
  exists r',
    nth_error (reminders (act c a)) i = Some r' /\
    Reminder.isDismissed r' = true /\ Reminder.id r' = Reminder.id r /\
    Reminder.noteId r' = Reminder.noteId r /\
    Reminder.text r' = Reminder.text r.
Proof.
  intros Hi Hd. destruct a as [rid|rid|b]; simpl.
  - rewrite nth_error_map, Hi. simpl.
    destruct (string_eqb (Reminder.id r) rid); eexists;
      (split; [reflexivity|]); repeat split; assumption.
  - rewrite nth_error_map, Hi. simpl.
    destruct (string_eqb (Reminder.id r) rid); eexists;
      (split; [reflexivity|]); repeat split; try assumption; reflexivity.
  - exists r. repeat split; assumption.
Qed.

Lemma actAll_dismissed (actions : list Action) :
  forall (c : Component) (i : nat) (r : Reminder.t),
    nth_error (reminders c) i = Some r -> Reminder.isDismissed r = true ->
    exists r',
      nth_error (reminders (actAll c actions)) i = Some r' /\
      Reminder.isDismissed r' = true /\ Reminder.id r' = Reminder.id r /\
      Reminder.noteId r' = Reminder.noteId r /\
      Reminder.text r' = Reminder.text r.
Proof.
  unfold actAll.
  induction actions as [|a actions IH]; intros c i r Hi Hd; simpl.
  - exists r. repeat split; assumption.
  - destruct (act_dismissed c a i Hi Hd) as (r1 & H1 & D1 & I1 & N1 & T1).
    destruct (IH _ _ _ H1 D1) as (r2 & H2 & D2 & I2 & N2 & T2).
    exists r2. repeat split; congruence.
Qed.

Lemma active_not_dismissed (c : Component) (r : Reminder.t) :
  In r (activeReminders c) -> Reminder.isDismissed r = false.
Proof.
  unfold activeReminders. intros H. apply filter_In in H.
  destruct H as [_ H]. apply andb_prop in H. destruct H as [H _].
  apply negb_true_iff, H.
Qed.

(** X22: no handler of the list brings a dismissed reminder back:
    whatever is completed, dismissed or switched afterwards, the reminder
    at that place is still the same one, still dismissed, and is not
    among the reminders shown. *)
Theorem dismissed_stays_dismissed (actions : list Action) (c : Component)
  (i : nat) (r : Reminder.t) :
  nth_error (reminders c) i = Some r -> Reminder.isDismissed r = true ->
  exists r',
    nth_error (reminders (actAll c actions)) i = Some r' /\
    Reminder.isDismissed r' = true /\
    Reminder.id r' = Reminder.id r /\
    Reminder.noteId r' = Reminder.noteId r /\
    Reminder.text r' = Reminder.text r /\
    ~ In r' (activeReminders (actAll c actions)).
Proof.
  intros Hi Hd.
  destruct (actAll_dismissed actions c i Hi Hd) as (r' & H & D & I & N & T).
  exists r'. repeat split; try assumption.
  intros A. apply active_not_dismissed in A. congruence.
Qed.

Lemma dismissed_stays_dismissed_witness :
  let r := Reminder.mk (str "a") (str "n") (str "stretch") (str "stretch")
             medium (str "fitness") None false true (str "t") in
  let c := mkComponent [] [r] false false [] 0 in
  nth_error (reminders c) 0 = Some r /\ Reminder.isDismissed r = true /\
  exists r',
    nth_error (reminders (actAll c [Complete (str "a"); ShowCompleted true]))
      0 = Some r' /\
    Reminder.isDismissed r' = true.
Proof.
  cbv zeta. split; [reflexivity|]. split; [reflexivity|].
  destruct (@dismissed_stays_dismissed
              [Complete (str "a"); ShowCompleted true]
              (mkComponent []
                 [Reminder.mk (str "a") (str "n") (str "stretch")
                    (str "stretch") medium (str "fitness") None false true
                    (str "t")] false false [] 0)
              0 _ eq_refl eq_refl) as (r' & H & D & _).
  exists r'. split; assumption.
Defined.

Lemma active_count (rs : list Reminder.t) :
  length (filter (fun r => negb (Reminder.isDismissed r)
                           && (negb (Reminder.isCompleted r) || true)) rs)
  = length (filter (fun r => negb (Reminder.isDismissed r)
                             && (negb (Reminder.isCompleted r) || false)) rs)
    + length (filter (fun r => Reminder.isCompleted r
                               && negb (Reminder.isDismissed r)) rs).
Proof.
  induction rs as [|r rs IH]; [reflexivity|].
  simpl. destruct (Reminder.isDismissed r), (Reminder.isCompleted r);
    simpl; lia.
Qed.

(** X23: the reminders shown are never dismissed ones, and never
    completed ones while [Show completed] is off; and switching it on
    shows exactly [completedCount] reminders more. *)
Theorem activeReminders_count (c : Component) :
  (forall r, In r (activeReminders c) -> Reminder.isDismissed r = false) /\
  (showCompleted c = false ->
   forall r, In r (activeReminders c) -> Reminder.isCompleted r = false) /\
  length (activeReminders (setShowCompleted true c))
  = length (activeReminders (setShowCompleted false c)) + completedCount c.
Proof.
  split; [intros r; apply active_not_dismissed|]. split.
  - intros S r H. unfold activeReminders in H. apply filter_In in H.
    destruct H as [_ H]. rewrite S in H. apply andb_prop in H.
    destruct H as [_ H]. rewrite orb_false_r in H. apply negb_true_iff, H.
  - unfold activeReminders, completedCount, setShowCompleted. simpl.
    apply active_count.
Qed.

Lemma dismiss_active (reminderId : jsstring) (b : bool) (rs : list Reminder.t) :
  filter (fun r => negb (Reminder.isDismissed r)
                   && (negb (Reminder.isCompleted r) || b))
    (map (fun r => if string_eqb (Reminder.id r) reminderId
                   then withDismissed true r else r) rs)
  = filter (fun r => negb (string_eqb (Reminder.id r) reminderId))
      (filter (fun r => negb (Reminder.isDismissed r)
                        && (negb (Reminder.isCompleted r) || b)) rs).
Proof.
  induction rs as [|r rs IH]; [reflexivity|].
  simpl. rewrite IH.
  destruct (string_eqb (Reminder.id r) reminderId) eqn:E; simpl.
  - destruct (negb (Reminder.isDismissed r)
              && (negb (Reminder.isCompleted r) || b)); simpl;
      rewrite ?E; reflexivity.
  - destruct (negb (Reminder.isDismissed r)
              && (negb (Reminder.isCompleted r) || b)); simpl;
      rewrite ?E; reflexivity.
Qed.

(** X24: dismissing takes the reminders with the given id, and no others,
    out of the reminders shown, and leaves the rest in their order. *)
Theorem dismissReminder_active (reminderId : jsstring) (c : Component) :
  activeReminders (dismissReminder reminderId c)
  = filter (fun r => negb (string_eqb (Reminder.id r) reminderId))
      (activeReminders c).
Proof. unfold activeReminders. simpl. apply dismiss_active. Qed.

(** ** The tags of the page *)

Lemma extractTags_subseq (content : jsstring) :
  subseq (extractTags content) tagNames.
Proof.
  unfold extractTags, tagNames.
  destruct (includes _ (str "exercise") || includes _ (str "workout"));
  destruct (includes _ (str "water") || includes _ (str "drink"));
  destruct (includes _ (str "sleep") || includes _ (str "bed"));
  destruct (includes _ (str "read") || includes _ (str "book"));
  destruct (includes _ (str "meditat"));
  simpl; repeat first [apply subseq_keep | apply subseq_skip | apply subseq_nil].
Qed.

Lemma existsb_false_In {A : Type} (f : A -> bool) (l : list A) (x : A) :
  existsb f l = false -> In x l -> f x = false.
Proof.
  intros H Hx. apply not_true_is_false. intros T.
  assert (E : existsb f l = true) by (apply existsb_exists; exists x; auto).
  congruence.
Qed.

Lemma fitness_tag_category (content : jsstring) :
  In (str "fitness") (extractTags content) ->
  categorizeReminder content = str "fitness".
Proof.
  intros H. rewrite categorizeReminder_firstCategory.
  assert (E : includes (toLowerCase content) (str "exercise")
              || includes (toLowerCase content) (str "workout") = true).
  { unfold extractTags in H.
    destruct (includes _ (str "exercise") || includes _ (str "workout"));
      [reflexivity|].
    exfalso.
    destruct (includes _ (str "water") || includes _ (str "drink"));
    destruct (includes _ (str "sleep") || includes _ (str "bed"));
    destruct (includes _ (str "read") || includes _ (str "book"));
    destruct (includes _ (str "meditat"));
    simpl in H; repeat (destruct H as [H|H]; [discriminate|]); exact H. }
  unfold categoryKeywords. cbn [firstCategory existsb].
  apply orb_true_iff in E. destruct E as [E|E]; rewrite E;
    rewrite ?orb_true_r; reflexivity.
Qed.

Lemma general_category_tags (content : jsstring) :
  categorizeReminder content = str "general" ->
  extractTags content = [] \/ extractTags content = [str "learning"].
Proof.
  rewrite categorizeReminder_firstCategory.
  unfold categoryKeywords. cbn [firstCategory].
  destruct (existsb _ ["exercise"; "workout"; "gym"; "run"; "walk"; "jog";
                       "stretch"; "yoga"; "fitness"]) eqn:E1;
    [discriminate|].
  destruct (existsb _ ["drink"; "water"; "hydrate"]) eqn:E2; [discriminate|].
  destruct (existsb _ ["sleep"; "bed"; "rest"]) eqn:E3; [discriminate|].
  destruct (existsb _ ["meditat"; "mindfulness"; "breathe"]) eqn:E4;
    [discriminate|].
  destruct (existsb _ ["read"; "study"; "learn"]) eqn:E5; [discriminate|].
  intros _.
  assert (A1 := existsb_false_In _ _ "exercise" E1 ltac:(simpl; tauto)).
  assert (A2 := existsb_false_In _ _ "workout" E1 ltac:(simpl; tauto)).
  assert (A3 := existsb_false_In _ _ "water" E2 ltac:(simpl; tauto)).
  assert (A4 := existsb_false_In _ _ "drink" E2 ltac:(simpl; tauto)).
  assert (A5 := existsb_false_In _ _ "sleep" E3 ltac:(simpl; tauto)).
  assert (A6 := existsb_false_In _ _ "bed" E3 ltac:(simpl; tauto)).
  assert (A7 := existsb_false_In _ _ "meditat" E4 ltac:(simpl; tauto)).
  assert (A8 := existsb_false_In _ _ "read" E5 ltac:(simpl; tauto)).
  cbv beta in A1, A2, A3, A4, A5, A6, A7, A8.
  unfold extractTags. rewrite A1, A2, A3, A4, A5, A6, A7, A8.
  destruct (includes _ (str "book")); [right|left]; reflexivity.
Qed.

(** X25: the tags that the page gives a note are some of fitness,
    hydration, sleep, learning, mindfulness, in this order and each at
    most once.  They agree with the category of the same text in two
    ways: a text tagged fitness is of category fitness, and a text of
    category general has no tag, or the one tag learning (for [book], which
    is no keyword of a category). *)
Theorem extractTags_and_category (content : jsstring) :
  subseq (extractTags content) tagNames /\
  (In (str "fitness") (extractTags content) ->
   categorizeReminder content = str "fitness") /\
  (categorizeReminder content = str "general" ->
   extractTags content = [] \/ extractTags content = [str "learning"]).
Proof.
  split; [apply extractTags_subseq|].
  split; [apply fitness_tag_category|apply general_category_tags].
Qed.

(** ** Adding notes on the page *)

Lemma length_zero_nil {A : Type} (l : list A) : (length l =? 0) = true <-> l = [].
Proof. destruct l; simpl; split; congruence. Qed.

Lemma empty_text_no_matches (re : RegExp.t) :
  In re reminderPatterns -> execAll re [] = [].
Proof.
  intros H.
  assert (L := @matchesInOrder_length 0 (execAll re []) 0
                 (execLoop_inOrder re [] (reminderPatterns_not_nullable H) 1 0)).
  destruct L as [E|L]; [exact E|].
  destruct (execAll re []); [reflexivity|simpl in L; lia].
Qed.

Lemma empty_text_no_reminder (env : Env) (note : Note.t) (rs : list Reminder.t) :
  noteText note = [] -> pushNote env rs note = rs.
Proof.
  intros H. unfold pushNote. rewrite H.
  assert (G : forall ps, (forall p, In p ps -> In p reminderPatterns) ->
              fold_left
                (fun reminders pattern =>
                   fold_left (pushMatch env note []) (execAll pattern [])
                     reminders) ps rs = rs).
  { induction ps as [|p ps IH]; intros Hin; simpl; [reflexivity|].
    rewrite (empty_text_no_matches (Hin p (or_introl eq_refl))). simpl.
    apply IH. intros q Hq. apply Hin. right. exact Hq. }
  apply G. intros p Hp. exact Hp.
Qed.

(** X26: [addQuickNote] ignores an input that is empty or all white
    space and otherwise puts one note of type [text], with the input as it
    was typed, in front of the notes, which stay as they are, stores the
    new list and clears the input.  [onVoiceTranscript] puts a note of
    type [voice] in front for any transcript, stores the new list and
    leaves the input alone; for an empty transcript that note has an empty
    text and gives no reminder.  Either note has the decimal text of
    [Date.now()] as its id, the clock's ISO text as its timestamp and the
    tags of its text. *)
Theorem page_adds_notes (clock : Clock) (p : Page.t) :
  (forallb isWhiteSpace (Page.quickNote p) = true ->
   Page.addQuickNote clock p = p) /\
  (forallb isWhiteSpace (Page.quickNote p) = false ->
   exists note,
     Page.notes (Page.addQuickNote clock p) = note :: Page.notes p /\
     Page.stored (Page.addQuickNote clock p) = Some (note :: Page.notes p) /\
     Page.quickNote (Page.addQuickNote clock p) = [] /\
     Note.type note = text_note /\
     Note.id note = numberToString (now clock) /\
     Note.timestamp note = nowISO clock /\
     Note.tags note = Some (extractTags (Page.quickNote p)) /\
     noteText note = Page.quickNote p /\ pageMade note) /\
  (forall transcript,
     exists note,
       Page.notes (Page.onVoiceTranscript clock transcript p)
       = note :: Page.notes p /\
       Page.stored (Page.onVoiceTranscript clock transcript p)
       = Some (note :: Page.notes p) /\
       Page.quickNote (Page.onVoiceTranscript clock transcript p)
       = Page.quickNote p /\
       Note.type note = voice_note /\
       Note.id note = numberToString (now clock) /\
       Note.timestamp note = nowISO clock /\
       Note.tags note = Some (extractTags transcript) /\
       noteText note = transcript /\ pageMade note /\
       (transcript = [] ->
        forall env rs, pushNote env rs note = rs)).
Proof.
  split; [|split].
  - intros H. apply trim_nil in H. unfold Page.addQuickNote.
    rewrite H. reflexivity.
  - intros H. unfold Page.addQuickNote.
    destruct (length (trim (Page.quickNote p)) =? 0) eqn:E.
    + apply length_zero_nil, trim_nil in E. congruence.
    + eexists. repeat split.
  - intros transcript. eexists. split; [reflexivity|].
    do 6 (split; [reflexivity|]).
    split; [destruct transcript; reflexivity|].
    split; [reflexivity|].
    intros -> env rs. apply empty_text_no_reminder. reflexivity.
Qed.

(** ** Deleting and editing notes *)

Lemma filter_subseq {A : Type} (f : A -> bool) (l : list A) :
  subseq (filter f l) l.
Proof.
  induction l as [|x l IH]; simpl; [constructor|].
  destruct (f x); constructor; exact IH.
Qed.

Lemma filter_keeps_all {A : Type} (f : A -> bool) (l : list A) :
  (forall x, In x l -> f x = true) -> filter f l = l.
Proof.
  induction l as [|x l IH]; intros H; simpl; [reflexivity|].
  rewrite (H x (or_introl eq_refl)), IH; [reflexivity|].
  intros y Hy. apply H. right. exact Hy.
Qed.

(** X27: [deleteNote] hands on the notes whose id is not the given one, in
    their order: every note with that id goes, also when several share it,
    and when no note has the id the list is handed on unchanged. *)
Theorem deleteNote_removes (noteId : jsstring) (ns : list Note.t) :
  (forall note, In note (NotesManager.deleteNote noteId ns) <->
                In note ns /\ Note.id note <> noteId) /\
  subseq (NotesManager.deleteNote noteId ns) ns /\
  ((forall note, In note ns -> Note.id note <> noteId) ->
   NotesManager.deleteNote noteId ns = ns) /\
  NotesManager.deleteNote noteId (NotesManager.deleteNote noteId ns)
  = NotesManager.deleteNote noteId ns.
Proof.
  assert (Neq : forall note, negb (string_eqb (Note.id note) noteId) = true
                             <-> Note.id note <> noteId).
  { intros note. rewrite negb_true_iff. split.
    - intros H E. apply string_eqb_eq in E. congruence.
    - intros H. apply not_true_is_false. intros E. apply string_eqb_eq in E.
      congruence. }
  split; [|split; [|split]].
  - intros note. unfold NotesManager.deleteNote. rewrite filter_In, Neq.
    reflexivity.
  - apply filter_subseq.
  - intros H. apply filter_keeps_all. intros x Hx. apply Neq, H, Hx.
  - apply filter_keeps_all. intros x Hx. apply filter_In in Hx. apply Hx.
Qed.

Lemma saveEdit_result (ns : list Note.t) (s : NotesManager.t) (e : Note.t) :
  NotesManager.editingNote s = Some e ->
  NotesManager.saveEdit ns s
  = (Some (map (fun note =>
                  if string_eqb (Note.id note) (Note.id e)
                  then Note.mk (Note.id note)
                         (if NotesManager.isText (Note.type e)
                          then NotesManager.editContent s
                          else Note.content note)
                         (if NotesManager.isVoice (Note.type e)
                          then Some (NotesManager.editContent s)
                          else Note.transcript note)
                         (Note.timestamp note) (Note.type note)
                         (Note.tags note)
                  else note) ns),
     NotesManager.mk (NotesManager.searchTerm s) (NotesManager.filterType s)
       None []).
Proof. intros H. unfold NotesManager.saveEdit. rewrite H. reflexivity. Qed.

Lemma edited_noteText (e : Note.t) (value : jsstring) :
  pageMade e ->
  noteText
    (Note.mk (Note.id e)
       (if NotesManager.isText (Note.type e) then value else Note.content e)
       (if NotesManager.isVoice (Note.type e) then Some value
        else Note.transcript e)
       (Note.timestamp e) (Note.type e) (Note.tags e))
  = value.
Proof.
  unfold pageMade, noteText. destruct (Note.type e); simpl; intros H.
  - rewrite H. reflexivity.
  - rewrite H. destruct value; reflexivity.
Qed.

Lemma unedited_noteCore (e : Note.t) :
  noteCore
    (Note.mk (Note.id e)
       (if NotesManager.isText (Note.type e) then noteText e
        else Note.content e)
       (if NotesManager.isVoice (Note.type e) then Some (noteText e)
        else Note.transcript e)
       (Note.timestamp e) (Note.type e) (Note.tags e))
  = noteCore e.
Proof.
  unfold noteCore, noteText. simpl.
  destruct (Note.type e); simpl;
    destruct (Note.transcript e) as [[|c t]|]; try reflexivity;
    destruct (Note.content e); reflexivity.
Qed.

(** X28: saving an edit keeps the notes in number and order and leaves
    id, timestamp, type and tags of every note as they were, and the notes
    with another id untouched; without a note being edited nothing is
    handed on.  For a note as the page makes it, the saved text is what
    the extractor reads from the note afterwards. *)
Theorem saveEdit_frame (ns : list Note.t) (s : NotesManager.t) :
  (NotesManager.editingNote s = None ->
   NotesManager.saveEdit ns s = (None, s)) /\
  (forall e, NotesManager.editingNote s = Some e ->
     exists updated s',
       NotesManager.saveEdit ns s = (Some updated, s') /\
       NotesManager.editingNote s' = None /\
       NotesManager.editContent s' = [] /\
       map noteFrame updated = map noteFrame ns /\
       (forall i note, nth_error ns i = Some note ->
          Note.id note <> Note.id e -> nth_error updated i = Some note) /\
       (forall i, nth_error ns i = Some e -> pageMade e ->
          exists e', nth_error updated i = Some e' /\
                     noteText e' = NotesManager.editContent s)).
Proof.
  split.
  - intros H. unfold NotesManager.saveEdit. rewrite H. reflexivity.
  - intros e H. rewrite (saveEdit_result ns s H).
    eexists. eexists. split; [reflexivity|].
    split; [reflexivity|]. split; [reflexivity|]. split; [|split].
    + rewrite map_map. apply map_ext. intros note.
      destruct (string_eqb _ _); reflexivity.
    + intros i note Hi N. rewrite nth_error_map, Hi. simpl.
      destruct (string_eqb (Note.id note) (Note.id e)) eqn:E; [|reflexivity].
      apply string_eqb_eq in E. congruence.
    + intros i Hi P. rewrite nth_error_map, Hi. simpl.
      rewrite string_eqb_refl. eexists. split; [reflexivity|].
      apply edited_noteText, P.
Qed.

Lemma saveEdit_unchanged_core (ns : list Note.t) (e : Note.t) :
  (forall note, In note ns -> Note.id note = Note.id e -> note = e) ->
  map noteCore
    (map (fun note =>
            if string_eqb (Note.id note) (Note.id e)
            then Note.mk (Note.id note)
                   (if NotesManager.isText (Note.type e) then noteText e
                    else Note.content note)
                   (if NotesManager.isVoice (Note.type e)
                    then Some (noteText e) else Note.transcript note)
                   (Note.timestamp note) (Note.type note) (Note.tags note)
            else note) ns)
  = map noteCore ns.
Proof.
  intros U. rewrite map_map. apply map_ext_in. intros note Hn.
  destruct (string_eqb (Note.id note) (Note.id e)) eqn:E; [|reflexivity].
  apply string_eqb_eq in E. rewrite (U note Hn E). apply unedited_noteCore.
Qed.

(** X29: opening the editor on a note and saving at once changes no
    reminder: when the note is the only one with its id, the list handed
    on gives the same extraction as the list before, whatever the type of
    the note and wherever its text is kept. *)
Theorem edit_without_change (env : Env) (ns : list Note.t)
  (s : NotesManager.t) (e : Note.t) :
  (forall note, In note ns -> Note.id note = Note.id e -> note = e) ->
  exists updated s',
    NotesManager.saveEdit ns (NotesManager.startEditing e s)
    = (Some updated, s') /\
    extractRemindersFromNotes env updated = extractRemindersFromNotes env ns.
Proof.
  intros U.
  rewrite (@saveEdit_result ns (NotesManager.startEditing e s) e eq_refl).
  eexists. eexists. split; [reflexivity|].
  apply extract_core. cbn [NotesManager.editContent NotesManager.startEditing].
  apply saveEdit_unchanged_core, U.
Qed.

Lemma edit_without_change_witness :
  let e := Note.mk (str "7") [] (Some (str "need to stretch")) (str "t")
             voice_note None in
  (forall note, In note [e] -> Note.id note = Note.id e -> note = e) /\
  exists updated s',
    NotesManager.saveEdit [e]
      (NotesManager.startEditing e (NotesManager.mk [] filter_all None []))
    = (Some updated, s') /\
    extractRemindersFromNotes sampleEnv updated
    = extractRemindersFromNotes sampleEnv [e].
Proof.
  cbv zeta.
  assert (U : forall note,
             In note [Note.mk (str "7") [] (Some (str "need to stretch"))
                        (str "t") voice_note None] ->
             Note.id note
             = Note.id (Note.mk (str "7") [] (Some (str "need to stretch"))
                          (str "t") voice_note None) ->
             note = Note.mk (str "7") [] (Some (str "need to stretch"))
                      (str "t") voice_note None).
  { intros note [H|[]] _. symmetry. exact H. }
  split; [exact U|].
  exact (@edit_without_change sampleEnv _
           (NotesManager.mk [] filter_all None []) _ U).
Defined.

(** ** Searching the notes *)

Lemma includes_empty (s : jsstring) : includes s [] = true.
Proof. destruct s; reflexivity. Qed.

Lemma lowerChar_idempotent (c : ascii) : lowerChar (lowerChar c) = lowerChar c.
Proof.
  destruct c as [b0 b1 b2 b3 b4 b5 b6 b7].
  destruct b0, b1, b2, b3, b4, b5, b6, b7; reflexivity.
Qed.

Lemma toLowerCase_idempotent (s : jsstring) :
  toLowerCase (toLowerCase s) = toLowerCase s.
Proof.
  unfold toLowerCase. rewrite map_map. apply map_ext.
  apply lowerChar_idempotent.
Qed.

(** X30: the list shown is a part of the notes, in their order; with an
    empty search term and the filter [all] it is all of them; and a search
    term finds the same notes in whatever letter case it is typed. *)
Theorem filteredNotes_search (ns : list Note.t) (s : NotesManager.t) :
  subseq (NotesManager.filteredNotes ns s) ns /\
  (NotesManager.searchTerm s = [] ->
   NotesManager.filterType s = filter_all ->
   NotesManager.filteredNotes ns s = ns) /\
  NotesManager.filteredNotes ns
    (NotesManager.mk (toLowerCase (NotesManager.searchTerm s))
       (NotesManager.filterType s) (NotesManager.editingNote s)
       (NotesManager.editContent s))
  = NotesManager.filteredNotes ns s.
Proof.
  split; [apply filter_subseq|]. split.
  - intros T F. unfold NotesManager.filteredNotes. rewrite T, F.
    apply filter_keeps_all. intros note _. simpl.
    rewrite includes_empty. reflexivity.
  - unfold NotesManager.filteredNotes. simpl.
    rewrite toLowerCase_idempotent. reflexivity.
Qed.

(** * Completion across a new extraction *)

(** ** What a quantified class takes *)





(** ** Group 1 of the patterns of the extractor *)





















(** ** No reminder text is empty *)




(** ** The decimal text of a number *)

Lemma string_of_uint_length (d : Decimal.uint) :
  length (str (NilEmpty.string_of_uint d)) = Decimal.nb_digits d.
Proof.
  unfold str. induction d; simpl; try rewrite IHd; reflexivity.
Qed.

(** The digits behind a leading part [acc]. *)
Lemma of_uint_acc_bounds (l : Decimal.uint) :
  forall acc,
    (N.pos acc * 10 ^ N.of_nat (Decimal.nb_digits l)
     <= N.pos (Pos.of_uint_acc l acc)
     < (N.pos acc + 1) * 10 ^ N.of_nat (Decimal.nb_digits l))%N.
Proof.
  induction l; intros acc;
    cbn [Pos.of_uint_acc Decimal.nb_digits];
    try (rewrite Nnat.Nat2N.inj_succ, N.pow_succ_r';
         match goal with
         | |- context [Pos.of_uint_acc l ?a] =>
             specialize (IHl a);
             set (v := N.pos (Pos.of_uint_acc l a)) in *;
             set (p := (10 ^ N.of_nat (Decimal.nb_digits l))%N) in *
         end;
         nia).
  simpl. lia.
Qed.

Lemma pow10_between (m k : nat) (n : N) :
  (10 ^ N.of_nat m <= n < 10 ^ N.of_nat (S m))%N ->
  (10 ^ N.of_nat k <= n < 10 ^ N.of_nat (S k))%N ->
  m = k.
Proof.
  intros [A B] [C D].
  destruct (Nat.lt_trichotomy m k) as [L|[E|L]]; [exfalso|exact E|exfalso].
  - assert (P : (10 ^ N.of_nat (S m) <= 10 ^ N.of_nat k)%N)
      by (apply N.pow_le_mono_r; lia).
    lia.
  - assert (P : (10 ^ N.of_nat (S k) <= 10 ^ N.of_nat m)%N)
      by (apply N.pow_le_mono_r; lia).
    lia.
Qed.

(** A number from [10^k] up to [10^(k+1)] is written with [k+1] digits. *)
Lemma numberToString_length (n : N) (k : nat) :
  (10 ^ N.of_nat k <= n < 10 ^ N.of_nat (S k))%N ->
  length (numberToString n) = S k.
Proof.
  intros H. unfold numberToString. rewrite string_of_uint_length.
  assert (V := DecimalN.Unsigned.of_to n).
  assert (U := DecimalN.Unsigned.to_of (N.to_uint n)). rewrite V in U.
  assert (Pos : (0 < n)%N).
  { apply N.lt_le_trans with (2 := proj1 H).
    apply N.neq_0_lt_0, N.pow_nonzero. discriminate. }
  revert V U. generalize (N.to_uint n) as d. intros d V U.
  unfold N.of_uint in V.
  assert (Head : forall l acc,
             N.pos (Pos.of_uint_acc l acc) = n ->
             (1 <= N.pos acc < 10)%N ->
             Decimal.nb_digits l = k).
  { intros l acc E A. apply (@pow10_between _ _ n); [|exact H].
    assert (B := of_uint_acc_bounds l acc). rewrite E in B.
    rewrite Nnat.Nat2N.inj_succ, N.pow_succ_r'.
    set (p := (10 ^ N.of_nat (Decimal.nb_digits l))%N) in *. nia. }
  destruct d; cbn [Pos.of_uint Decimal.nb_digits] in *;
    try (f_equal; apply (Head _ _ V); lia).
  - subst n. lia.
  - exfalso. unfold Decimal.unorm in U. simpl Decimal.nzhead in U.
    assert (Z := DecimalFacts.nb_digits_nzhead d).
    destruct (Decimal.nzhead d) eqn:N0.
    + injection U as U. subst d. simpl in V. subst n. lia.
    + injection U as U. rewrite U in Z. simpl in Z. lia.
    + discriminate. + discriminate. + discriminate. + discriminate.
    + discriminate. + discriminate. + discriminate. + discriminate.
    + discriminate.
Qed.

(** ** The identifiers of the notes of the page *)

(** The identifiers that the page gives, [Date.now().toString()], have one
    length as long as the clock stays between two powers of ten (thirteen
    digits from 2001 to 2286), and the notes manager hands identifiers
    on as they are. *)
Lemma page_ids_one_length (clock : Clock) (k : nat) (p : Page.t)
  (transcript : jsstring) :
  (10 ^ N.of_nat k <= now clock < 10 ^ N.of_nat (S k))%N ->
  Forall (fun note => length (Note.id note) = S k) (Page.notes p) ->
  Forall (fun note => length (Note.id note) = S k)
    (Page.notes (Page.addQuickNote clock p)) /\
  Forall (fun note => length (Note.id note) = S k)
    (Page.notes (Page.onVoiceTranscript clock transcript p)).
Proof.
  intros H F. assert (L := numberToString_length H). split.
  - unfold Page.addQuickNote.
    destruct (length (trim (Page.quickNote p)) =? 0); [exact F|].
    constructor; [exact L|exact F].
  - constructor; [exact L|exact F].
Qed.

Lemma manager_ids_one_length (len : nat) (ns : list Note.t)
  (s : NotesManager.t) (noteId : jsstring) :
  Forall (fun note => length (Note.id note) = len) ns ->
  Forall (fun note => length (Note.id note) = len)
    (NotesManager.deleteNote noteId ns) /\
  (forall updated,
     fst (NotesManager.saveEdit ns s) = Some updated ->
     Forall (fun note => length (Note.id note) = len) updated).
Proof.
  intros F. split.
  - unfold NotesManager.deleteNote. rewrite Forall_forall in *.
    intros note H. apply filter_In in H. apply F, H.
  - unfold NotesManager.saveEdit.
    destruct (NotesManager.editingNote s) as [e|]; [|discriminate].
    intros updated H. injection H as <-.
    rewrite Forall_forall in *. intros note H.
    apply in_map_iff in H. destruct H as (x & <- & Hx).
    specialize (F x Hx). destruct (string_eqb _ _); exact F.
Qed.

(** ** The merge key [noteId + text] *)








(** The merge key is the concatenation [noteId + text], so the hypothesis
    on the identifiers is not idle.  On [collidingNotes], which no handler
    of the page makes, the key of the first reminder, [n] followed by
    [buy milk and pay rent], is also the key of the second,
    [nbuy milk and ] followed by [pay rent]; the map built from the
    previous list keeps the later of the two entries, and the completed
    reminder comes out of the merge as not completed. *)
Remark completion_lost_on_key_collision :
  let c1 := notesEffect sampleEnv (mounted collidingNotes) in
  let c2 := completeReminder (str "n-1700000000000-0.25") c1 in
  let c3 := receiveNotes laterEnv collidingNotes c2 in
  map flagsOf (reminders c1)
    = [("n", "buy milk and pay rent", false);
       ("nbuy milk and ", "pay rent", false)] /\
  map mergeKey (reminders c1)
    = [str "nbuy milk and pay rent"; str "nbuy milk and pay rent"] /\
  map flagsOf (reminders c2)
    = [("n", "buy milk and pay rent", true);
       ("nbuy milk and ", "pay rent", false)] /\
  notes c2 = notes c1 /\
  map flagsOf (reminders c3)
    = [("n", "buy milk and pay rent", false);
       ("nbuy milk and ", "pay rent", false)].
Proof. cbv zeta. repeat split; vm_compute; reflexivity. Qed.
